(** * PerfJITEventListener: the perf jitdump writer of the JIT

    A shallow embedding of [src/PerfJITEventListener.cpp].  The listener
    creates a per-process dump file, writes a fixed header and then, for
    every function symbol of every emitted object, an optional debug-info
    record followed by a code-load record.

    Conventions of the embedding:
    - fixed-width C integers are [Z] with every truncation written out
      ([uint32], [uint64], [int32]);
    - the structs are Rocq records; a struct handed to [write] through
      [reinterpret_cast<const char *>] is laid out for the LP64
      little-endian ABI (x86-64, aarch64 Linux), where none of the five
      structs has padding;
    - the operating system and LLVM are an explicit [World] of oracles
      (clock, file system, [mmap], process memory, DWARF line tables);
    - the listener is an explicit state, threaded through every call. *)

From Stdlib Require Import ZArith List String Ascii Lia Bool.
From Stdlib Require Import Strings.Byte DecimalString Znumtheory Sorted.
Import ListNotations.
Local Open Scope Z_scope.

(** ** Fixed-width integers and their bytes *)

Definition uint32 (v : Z) : Z := v mod 2 ^ 32.
Definition uint64 (v : Z) : Z := v mod 2 ^ 64.

(** Conversion to [int] (two's complement, 32 bits). *)
Definition int32 (v : Z) : Z :=
  let u := v mod 2 ^ 32 in if u <? 2 ^ 31 then u else u - 2 ^ 32.

Definition Z_of_byte (b : byte) : Z := Z.of_N (Byte.to_N b).

Definition byte_of_Z (v : Z) : byte :=
  match Byte.of_N (Z.to_N (v mod 256)) with
  | Some b => b
  | None => x00
  end.

(** The [n] bytes of an integer object, least significant first. *)
Fixpoint le_bytes (n : nat) (v : Z) : list byte :=
  match n with
  | O => []
  | S k => byte_of_Z v :: le_bytes k (v / 256)
  end.

(** The unsigned value of a run of bytes, least significant first. *)
Fixpoint le_value (bs : list byte) : Z :=
  match bs with
  | [] => 0
  | b :: rest => Z_of_byte b + 256 * le_value rest
  end.

(** [s.c_str()] / [s.data()] taken with [s.size() + 1] bytes: the
    characters and the terminating NUL. *)
Definition c_str (s : string) : list byte := list_byte_of_string s ++ [x00].

Definition strlen (s : string) : Z := Z.of_nat (String.length s).

(** ** The POD structs of the perf jit specification *)

Definition JIT_LANG : string := "llvm-IR".

(** ['J' << 24 | 'i' << 16 | 'T' << 8 | 'D'] *)
Definition LLVM_PERF_JIT_MAGIC : Z :=
  Z.lor (Z.lor (Z.lor (Z.shiftl 74 24) (Z.shiftl 105 16)) (Z.shiftl 84 8)) 68.
Definition LLVM_PERF_JIT_VERSION : Z := 1.

(** bit 0: set if the jitdump file is using an architecture-specific
    timestamp clock source *)
Definition JITDUMP_FLAGS_ARCH_TIMESTAMP : Z := Z.shiftl 1 0.

(** [enum LLVMPerfJitRecordType] *)
Inductive LLVMPerfJitRecordType :=
| JIT_CODE_LOAD
| JIT_CODE_MOVE            (* not emitted, code isn't moved *)
| JIT_CODE_DEBUG_INFO
| JIT_CODE_CLOSE           (* not emitted, unnecessary *)
| JIT_CODE_UNWINDING_INFO  (* not emitted *)
| JIT_CODE_MAX.

(** The value of an enumerator, as it is stored in a [uint32_t]. *)
Definition record_type_value (ty : LLVMPerfJitRecordType) : Z :=
  match ty with
  | JIT_CODE_LOAD => 0
  | JIT_CODE_MOVE => 1
  | JIT_CODE_DEBUG_INFO => 2
  | JIT_CODE_CLOSE => 3
  | JIT_CODE_UNWINDING_INFO => 4
  | JIT_CODE_MAX => 5
  end.

Coercion record_type_value : LLVMPerfJitRecordType >-> Z.

Module Header.
(** [struct LLVMPerfJitHeader] *)
Record t := mk {
  Magic : Z;      (* uint32_t *)
  Version : Z;    (* uint32_t *)
  TotalSize : Z;  (* uint32_t *)
  ElfMach : Z;    (* uint32_t *)
  Pad1 : Z;       (* uint32_t *)
  Pid : Z;        (* uint32_t *)
  Timestamp : Z;  (* uint64_t *)
  Flags : Z       (* uint64_t *)
}.
Definition sizeof : Z := 40.
(** [Header = {0}] *)
Definition zero : t := mk 0 0 0 0 0 0 0 0.
Definition bytes (h : t) : list byte :=
  le_bytes 4 (Magic h) ++ le_bytes 4 (Version h) ++ le_bytes 4 (TotalSize h)
  ++ le_bytes 4 (ElfMach h) ++ le_bytes 4 (Pad1 h) ++ le_bytes 4 (Pid h)
  ++ le_bytes 8 (Timestamp h) ++ le_bytes 8 (Flags h).
End Header.

Module Prefix.
(** [struct LLVMPerfJitRecordPrefix] *)
Record t := mk {
  Id : Z;         (* uint32_t *)
  TotalSize : Z;  (* uint32_t *)
  Timestamp : Z   (* uint64_t *)
}.
Definition sizeof : Z := 16.
Definition bytes (p : t) : list byte :=
  le_bytes 4 (Id p) ++ le_bytes 4 (TotalSize p) ++ le_bytes 8 (Timestamp p).
End Prefix.

Module CodeLoad.
(** [struct LLVMPerfJitRecordCodeLoad] *)
Record t := mk {
  Prefix : Prefix.t;
  Pid : Z;        (* uint32_t *)
  Tid : Z;        (* uint32_t *)
  Vma : Z;        (* uint64_t *)
  CodeAddr : Z;   (* uint64_t *)
  CodeSize : Z;   (* uint64_t *)
  CodeIndex : Z   (* uint64_t *)
}.
Definition sizeof : Z := 56.
Definition bytes (r : t) : list byte :=
  Prefix.bytes (Prefix r) ++ le_bytes 4 (Pid r) ++ le_bytes 4 (Tid r)
  ++ le_bytes 8 (Vma r) ++ le_bytes 8 (CodeAddr r) ++ le_bytes 8 (CodeSize r)
  ++ le_bytes 8 (CodeIndex r).
End CodeLoad.

Module DebugEntry.
(** [struct LLVMPerfJitDebugEntry]; the file name follows it. *)
Record t := mk {
  Addr : Z;     (* uint64_t *)
  Lineno : Z;   (* int *)
  Discrim : Z   (* int *)
}.
Definition sizeof : Z := 16.
Definition bytes (e : t) : list byte :=
  le_bytes 8 (Addr e) ++ le_bytes 4 (Lineno e) ++ le_bytes 4 (Discrim e).
End DebugEntry.

Module DebugInfo.
(** [struct LLVMPerfJitRecordDebugInfo]; [NrEntry] entries follow it. *)
Record t := mk {
  Prefix : Prefix.t;
  CodeAddr : Z;  (* uint64_t *)
  NrEntry : Z    (* uint64_t *)
}.
Definition sizeof : Z := 32.
Definition bytes (r : t) : list byte :=
  Prefix.bytes (Prefix r) ++ le_bytes 8 (CodeAddr r) ++ le_bytes 8 (NrEntry r).
End DebugInfo.

(** What one call of [NotifyCode] or [NotifyDebug] hands to the stream:
    the struct and the variable-length data that follows it. *)
Inductive JitRecord :=
| CodeLoadRecord (rec : CodeLoad.t) (name : string) (code : list byte)
| DebugInfoRecord (rec : DebugInfo.t) (entries : list (DebugEntry.t * string)).

Definition entry_bytes (e : DebugEntry.t * string) : list byte :=
  DebugEntry.bytes (fst e) ++ c_str (snd e).

Definition record_bytes (r : JitRecord) : list byte :=
  match r with
  | CodeLoadRecord rec name code => CodeLoad.bytes rec ++ c_str name ++ code
  | DebugInfoRecord rec entries => DebugInfo.bytes rec ++ flat_map entry_bytes entries
  end.

Definition record_prefix (r : JitRecord) : Prefix.t :=
  match r with
  | CodeLoadRecord rec _ _ => CodeLoad.Prefix rec
  | DebugInfoRecord rec _ => DebugInfo.Prefix rec
  end.

(** ** The environment of the listener *)

(** [struct timespec] *)
Record timespec := { tv_sec : Z; tv_nsec : Z }.

(** [llvm::DILineInfo], the members the listener reads. *)
Record DILineInfo := {
  FileName : string;   (* std::string *)
  Line : Z;            (* uint32_t *)
  Discriminator : Z    (* uint32_t *)
}.

(** [llvm::DILineInfoTable]: pairs of an address and its line info. *)
Definition DILineInfoTable := list (Z * DILineInfo).

Inductive SymbolType :=
| ST_Unknown | ST_Data | ST_Debug | ST_File | ST_Function | ST_Other.

Definition is_function (ty : SymbolType) : bool :=
  match ty with ST_Function => true | _ => false end.

(** [llvm::object::SymbolRef]; each accessor is an [Expected<...>],
    [None] standing for the error. *)
Record SymbolRef := {
  getType : option SymbolType;
  getName : option string;
  getAddress : option Z       (* uint64_t *)
}.

(** The debug object of an emitted object file: its symbols with their
    sizes and the line tables of its DWARF context. *)
Record ObjectFile := {
  computeSymbolSizes : list (SymbolRef * Z);
  getLineInfoForAddressRange : Z -> Z -> DILineInfoTable
}.

(** Everything outside the listener.  [clock_gettime w i] is the result of
    the [i]-th call of [clock_gettime(CLOCK_MONOTONIC, _)] in this process
    ([None] when it returns non-zero). *)
Record World := {
  getpid : Z;                              (* pid_t *)
  clock_gettime : nat -> option timespec;
  today : string;                          (* strftime "%Y%m%d" of localtime *)
  getenv_JITDUMPDIR : option string;
  home_directory : option string;
  create_directories : string -> bool;     (* true: no error *)
  unique_suffix : string -> option string; (* the characters createUniqueDirectory picks *)
  openFileForWrite : string -> option Z;   (* the descriptor *)
  proc_self_exe : option (list byte);      (* the image behind /proc/self/exe *)
  mmap : Z -> Z;                           (* from the descriptor to the mapping *)
  header_write_fails : bool;               (* the stream reports an error *)
  memory : Z -> byte;                      (* the process's address space *)
  get_threadid : Z
}.

Definition MAP_FAILED : Z := 2 ^ 64 - 1.

(** [llvm::sys::fs::createUniqueDirectory(Prefix, ResultPath)] creates the
    directory [Prefix-%%%%%%], every [%] replaced by a random character,
    and returns its path.  This is LLVM's function for an absolute
    [Prefix] that holds no [%]: LLVM puts a relative [Prefix] under the
    temporary directory of the system first, and replaces a [%] of
    [Prefix] as well; nothing below rests on the form of the result for
    such a [Prefix]. *)
Definition createUniqueDirectory (w : World) (Prefix : string) : option string :=
  match unique_suffix w Prefix with
  | Some sfx => Some (Prefix ++ "-" ++ sfx)%string
  | None => None
  end.

(** What the listener does to its environment, in order. *)
Inductive Effect :=
| E_clock_gettime
| E_create_directories (Path : string)
| E_createUniqueDirectory (Prefix : string)
| E_openFileForWrite (Filename : string)
| E_read_self_exe
| E_mmap (fd : Z)
| E_write (data : list byte)
| E_flush.

(** ** The listener *)

(** [llvm::raw_fd_ostream]: the bytes handed to it and its error flag. *)
Record raw_fd_ostream := { written : list byte; has_error : bool }.

Record PerfJITEventListener := mkListener {
  Pid : Z;                          (* pid_t *)
  JitPath : string;
  DumpFd : Z;
  Dumpstream : raw_fd_ostream;
  MarkerAddr : Z;                   (* void *, 0 for NULL *)
  SuccessfullyInitialized : bool;
  CodeGeneration : Z;               (* uint64_t *)
  (* bookkeeping of the embedding, not members of the class *)
  ClockCalls : nat;                 (* calls of clock_gettime so far *)
  Effects : list Effect;            (* what was done to the environment *)
  Emitted : list JitRecord          (* the records handed to Dumpstream *)
}.

(** The member initialisers: [Pid(::getpid())], [DumpFd = -1],
    [MarkerAddr = NULL], [SuccessfullyInitialized = false],
    [CodeGeneration = 1]. *)
Definition initial (w : World) : PerfJITEventListener :=
  mkListener (getpid w) EmptyString (-1) {| written := []; has_error := false |}
             0 false 1 O [] [].

(** The updates of the listener.  Each takes the listener apart once. *)

Definition effect (e : Effect) (L : PerfJITEventListener) : PerfJITEventListener :=
  let '(mkListener pid path fd ds marker ini gen calls effs recs) := L in
  mkListener pid path fd ds marker ini gen calls (effs ++ [e]) recs.

Definition set_JitPath (p : string) (L : PerfJITEventListener) :=
  let '(mkListener pid path fd ds marker ini gen calls effs recs) := L in
  mkListener pid p fd ds marker ini gen calls effs recs.

Definition set_DumpFd (v : Z) (L : PerfJITEventListener) :=
  let '(mkListener pid path fd ds marker ini gen calls effs recs) := L in
  mkListener pid path v ds marker ini gen calls effs recs.

Definition set_Dumpstream (s : raw_fd_ostream) (L : PerfJITEventListener) :=
  let '(mkListener pid path fd ds marker ini gen calls effs recs) := L in
  mkListener pid path fd s marker ini gen calls effs recs.

Definition set_MarkerAddr (a : Z) (L : PerfJITEventListener) :=
  let '(mkListener pid path fd ds marker ini gen calls effs recs) := L in
  mkListener pid path fd ds a ini gen calls effs recs.

Definition set_SuccessfullyInitialized (b : bool) (L : PerfJITEventListener) :=
  let '(mkListener pid path fd ds marker ini gen calls effs recs) := L in
  mkListener pid path fd ds marker b gen calls effs recs.

Definition set_CodeGeneration (g : Z) (L : PerfJITEventListener) :=
  let '(mkListener pid path fd ds marker ini gen calls effs recs) := L in
  mkListener pid path fd ds marker ini g calls effs recs.

Definition tick (L : PerfJITEventListener) :=
  let '(mkListener pid path fd ds marker ini gen calls effs recs) := L in
  mkListener pid path fd ds marker ini gen (S calls) effs recs.

Definition emitted (r : JitRecord) (L : PerfJITEventListener) :=
  let '(mkListener pid path fd ds marker ini gen calls effs recs) := L in
  mkListener pid path fd ds marker ini gen calls effs (recs ++ [r]).

(** [Dumpstream->write(data, size)] *)
Definition Dumpstream_write (data : list byte) (L : PerfJITEventListener) :=
  let '(mkListener pid path fd ds marker ini gen calls effs recs) := L in
  mkListener pid path fd
             {| written := written ds ++ data; has_error := has_error ds |}
             marker ini gen calls (effs ++ [E_write data]) recs.

(** [Dumpstream->flush()] *)
Definition Dumpstream_flush (L : PerfJITEventListener) := effect E_flush L.

Definition NanoSecPerSec : Z := 1000000000.

Definition timespec_to_ns (ts : timespec) : Z :=
  uint64 (uint64 (uint64 (tv_sec ts) * NanoSecPerSec) + tv_nsec ts).

(** [perf_get_timestamp()]: 0 when the clock fails. *)
Definition perf_get_timestamp (w : World) (L : PerfJITEventListener)
  : Z * PerfJITEventListener :=
  let L' := effect E_clock_gettime (tick L) in
  match clock_gettime w (ClockCalls L) with
  | None => (0, L')
  | Some ts => (timespec_to_ns ts, L')
  end.

(** [InitDebuggingDir()] *)
Definition InitDebuggingDir (w : World) (L : PerfJITEventListener)
  : bool * PerfJITEventListener :=
  (* search for location to dump data to *)
  let Path :=
    match getenv_JITDUMPDIR w with
    | Some BaseDir => BaseDir
    | None => match home_directory w with
              | Some home => home
              | None => "."%string
              end
    end in
  (* create debug directory *)
  let Path := (Path ++ "/.debug/jit/")%string in
  let L := effect (E_create_directories Path) L in
  if negb (create_directories w Path) then (false, L) else
  (* create unique directory for dump data related to this process *)
  let Path := (Path ++ JIT_LANG ++ "-jit-")%string in
  let Path := (Path ++ today w)%string in
  let L := effect (E_createUniqueDirectory Path) L in
  match createUniqueDirectory w Path with
  | None => (false, L)
  | Some UniqueDebugDir => (true, set_JitPath UniqueDebugDir L)
  end.

(** [OpenMarker()] *)
Definition OpenMarker (w : World) (L : PerfJITEventListener)
  : bool * PerfJITEventListener :=
  let L := effect (E_mmap (DumpFd L)) L in
  let L := set_MarkerAddr (mmap w (DumpFd L)) L in
  if MarkerAddr L =? MAP_FAILED then (false, L) else (true, L).

(** [FillMachine(hdr)]: [None] for [false], otherwise the header with its
    [ElfMach] filled in.  [read] on the image returns the bytes that are
    there, at most as many as asked for. *)
Definition FillMachine (w : World) (hdr : Header.t) : option Header.t :=
  match proc_self_exe w with
  | None => None
  | Some image =>
    let id := firstn 16 image in
    if negb (Nat.eqb (List.length id) 16) then None else
    (* check ELF signature *)
    if negb (Byte.eqb (nth 0 id x00) x7f) || negb (Byte.eqb (nth 1 id x00) "E")
       || negb (Byte.eqb (nth 2 id x00) "L") || negb (Byte.eqb (nth 3 id x00) "F")
    then None else
    (* struct { uint16_t e_type; uint16_t e_machine; } info *)
    let info := firstn 4 (skipn 16 image) in
    if negb (Nat.eqb (List.length info) 4) then None else
    let e_machine := le_value (skipn 2 info) in
    Some (Header.mk (Header.Magic hdr) (Header.Version hdr) (Header.TotalSize hdr)
                    e_machine (Header.Pad1 hdr) (Header.Pid hdr)
                    (Header.Timestamp hdr) (Header.Flags hdr))
  end.

(** [FilenameBuf << JitPath << "jit-" << Pid << ".dump"] *)
Definition dump_Filename (L : PerfJITEventListener) : string :=
  (JitPath L ++ "jit-" ++ NilZero.string_of_int (Z.to_int (Pid L)) ++ ".dump")%string.

(** The constructor [PerfJITEventListener::PerfJITEventListener()], as
    run by [new PerfJITEventListener()].  The messages on [errs()] are
    left out. *)
Definition new_PerfJITEventListener (w : World) : PerfJITEventListener :=
  let L := initial w in
  let '(ts, L) := perf_get_timestamp w L in
  if ts =? 0 then L else
  let '(ok, L) := InitDebuggingDir w L in
  if negb ok then L else
  let Filename := dump_Filename L in
  let L := effect (E_openFileForWrite Filename) L in
  match openFileForWrite w Filename with
  | None => L
  | Some fd =>
    let L := set_DumpFd fd L in
    let Header := Header.zero in
    let L := effect E_read_self_exe L in
    match FillMachine w Header with
    | None => L
    | Some Header =>
      (* signal this process emits JIT information *)
      let '(ok, L) := OpenMarker w L in
      if negb ok then L else
      (* emit dumpstream header *)
      let '(ts, L) := perf_get_timestamp w L in
      let Header :=
        Header.mk LLVM_PERF_JIT_MAGIC LLVM_PERF_JIT_VERSION Header.sizeof
                  (Header.ElfMach Header) (Header.Pad1 Header) (uint32 (Pid L))
                  ts (Header.Flags Header) in
      let L := Dumpstream_write (Header.bytes Header) L in
      let L := set_Dumpstream {| written := written (Dumpstream L);
                                 has_error := header_write_fails w |} L in
      (* Everything initialized, can do profiling now. *)
      if negb (has_error (Dumpstream L))
      then set_SuccessfullyInitialized true L
      else L
    end
  end.

(** The [CodeSize] bytes at [CodeAddr], as
    [write(reinterpret_cast<const char *>(CodeAddr), CodeSize)] reads them. *)
Definition read_memory (w : World) (CodeAddr CodeSize : Z) : list byte :=
  map (fun i => memory w (CodeAddr + Z.of_nat i)) (seq 0 (Z.to_nat CodeSize)).

(** [NotifyCode(Symbol, CodeAddr, CodeSize)] *)
Definition NotifyCode (w : World) (L : PerfJITEventListener)
           (Symbol : string) (CodeAddr CodeSize : Z) : PerfJITEventListener :=
  (* 0 length functions can't have samples. *)
  if CodeSize =? 0 then L else
  let TotalSize := uint32 (uint64 (CodeLoad.sizeof + strlen Symbol + 1 + CodeSize)) in
  let '(ts, L) := perf_get_timestamp w L in
  let rec :=
    CodeLoad.mk (Prefix.mk JIT_CODE_LOAD TotalSize ts)
                (uint32 (Pid L)) (uint32 (get_threadid w)) 0
                CodeAddr CodeSize (CodeGeneration L) in
  let L := set_CodeGeneration (uint64 (CodeGeneration L + 1)) L in
  let code := read_memory w CodeAddr CodeSize in
  let L := Dumpstream_write (CodeLoad.bytes rec) L in
  let L := Dumpstream_write (c_str Symbol) L in
  let L := Dumpstream_write code L in
  emitted (CodeLoadRecord rec Symbol code) L.

(** The two [+=] of the size loop of [NotifyDebug], on the [uint32_t]
    field. *)
Definition add_entry_size (TotalSize : Z) (It : Z * DILineInfo) : Z :=
  let TotalSize := uint32 (TotalSize + DebugEntry.sizeof) in
  uint32 (TotalSize + (strlen (FileName (snd It)) + 1)).

(** The [LineInfo] of one iteration of the write loop of [NotifyDebug]. *)
Definition make_LineInfo (It : Z * DILineInfo) : DebugEntry.t :=
  let Addr := fst It in
  (* The function re-created by perf is preceded by a elf header. *)
  let Addr := uint64 (Addr + 0x40) in
  DebugEntry.mk Addr (int32 (Line (snd It))) (int32 (Discriminator (snd It))).

(** The body of the write loop of [NotifyDebug]. *)
Definition write_entry (L : PerfJITEventListener) (It : Z * DILineInfo)
  : PerfJITEventListener :=
  let LineInfo := make_LineInfo It in
  let L := Dumpstream_write (DebugEntry.bytes LineInfo) L in
  Dumpstream_write (c_str (FileName (snd It))) L.

(** [NotifyDebug(CodeAddr, Lines)] *)
Definition NotifyDebug (w : World) (L : PerfJITEventListener)
           (CodeAddr : Z) (Lines : DILineInfoTable) : PerfJITEventListener :=
  (* Didn't get useful debug info. *)
  match Lines with
  | [] => L
  | _ :: _ =>
    let '(ts, L) := perf_get_timestamp w L in
    (* compute total size size of record (variable due to filenames) *)
    let TotalSize := fold_left add_entry_size Lines DebugInfo.sizeof in
    let rec :=
      DebugInfo.mk (Prefix.mk JIT_CODE_DEBUG_INFO TotalSize ts)
                   CodeAddr (Z.of_nat (List.length Lines)) in
    let L := Dumpstream_write (DebugInfo.bytes rec) L in
    let L := fold_left write_entry Lines L in
    emitted (DebugInfoRecord rec
               (map (fun It => (make_LineInfo It, FileName (snd It))) Lines)) L
  end.

(** The body of the loop of [NotifyObjectEmitted] over the symbols. *)
Definition notify_symbol (w : World) (Obj : ObjectFile)
           (L : PerfJITEventListener) (P : SymbolRef * Z) : PerfJITEventListener :=
  let Sym := fst P in
  match getType Sym with
  | None => L
  | Some SymType =>
    if negb (is_function SymType) then L else
    match getName Sym with
    | None => L
    | Some Name =>
      match getAddress Sym with
      | None => L
      | Some Addr =>
        let Addr := uint64 Addr in       (* uint64_t Addr = *AddrOrErr *)
        let Size := uint64 (snd P) in    (* uint64_t Size = P.second *)
        (* According to spec debugging info has to come before loading the
           corresonding code load. *)
        let Lines := getLineInfoForAddressRange Obj Addr Size in
        let L := NotifyDebug w L Addr Lines in
        NotifyCode w L Name Addr Size
      end
    end
  end.

(** [NotifyObjectEmitted(Obj, L)]; [Obj] stands for the debug object
    [L.getObjectForDebug(Obj)]. *)
Definition NotifyObjectEmitted (w : World) (L : PerfJITEventListener)
           (Obj : ObjectFile) : PerfJITEventListener :=
  if negb (SuccessfullyInitialized L) then L else
  let L := fold_left (notify_symbol w Obj) (computeSymbolSizes Obj) L in
  Dumpstream_flush L.

(** [NotifyFreeingObject(Obj)] *)
Definition NotifyFreeingObject (L : PerfJITEventListener) (Obj : ObjectFile)
  : PerfJITEventListener := L.

(** The calls the JIT makes on the listener. *)
Inductive Event :=
| ObjectEmitted (Obj : ObjectFile)
| FreeingObject (Obj : ObjectFile).

Definition notify (w : World) (L : PerfJITEventListener) (e : Event)
  : PerfJITEventListener :=
  match e with
  | ObjectEmitted Obj => NotifyObjectEmitted w L Obj
  | FreeingObject Obj => NotifyFreeingObject L Obj
  end.

(** A session: the listener is constructed, then notified of the events. *)
Definition session (w : World) (events : list Event) : PerfJITEventListener :=
  fold_left (notify w) events (new_PerfJITEventListener w).

(** ** Reading a dump back

    A reader of the dump format, written from the description of the
    format and not from the listener: a header, then records, each
    delimited by the total size of its prefix.  A debug entry is a
    [uint64_t] address, an [int] line, an [int] discriminator and a null
    terminated file name, which is [\xff\0] if it is the same as that of
    the previous entry. *)

Definition take (n : nat) (bs : list byte) : option (list byte * list byte) :=
  if (n <=? List.length bs)%nat then Some (firstn n bs, skipn n bs) else None.

Definition get_uint (n : nat) (bs : list byte) : option (Z * list byte) :=
  match take n bs with
  | Some (x, rest) => Some (le_value x, rest)
  | None => None
  end.

(** The bytes up to the first NUL, and what follows that NUL. *)
Fixpoint get_c_str (bs : list byte) : option (list byte * list byte) :=
  match bs with
  | [] => None
  | b :: rest =>
    if Byte.eqb b x00 then Some ([], rest) else
    match get_c_str rest with
    | Some (s, rest') => Some (b :: s, rest')
    | None => None
    end
  end.

Definition get_string (bs : list byte) : option (string * list byte) :=
  match get_c_str bs with
  | Some (s, rest) => Some (string_of_list_byte s, rest)
  | None => None
  end.

Definition get_int32 (bs : list byte) : option (Z * list byte) :=
  match get_uint 4 bs with
  | Some (v, rest) => Some (int32 v, rest)
  | None => None
  end.

Notation "'do' x , r <- e ; k" :=
  (match e with Some (x, r) => k | None => None end)
  (at level 10, x name, r name, e at level 100, k at level 200).

Definition decode_header (bs : list byte) : option (Header.t * list byte) :=
  do magic, bs <- get_uint 4 bs;
  do version, bs <- get_uint 4 bs;
  do total, bs <- get_uint 4 bs;
  do mach, bs <- get_uint 4 bs;
  do pad, bs <- get_uint 4 bs;
  do pid, bs <- get_uint 4 bs;
  do ts, bs <- get_uint 8 bs;
  do flags, bs <- get_uint 8 bs;
  if (magic =? LLVM_PERF_JIT_MAGIC) && (total =? Header.sizeof)
  then Some (Header.mk magic version total mach pad pid ts flags, bs)
  else None.

(** The file name that stands for "same as the previous entry". *)
Definition same_as_previous : string := string_of_list_byte [xff].

(** The file of an entry whose file name reads [name], when the entry
    before it, if there is one, has the file [prev]: the name of the first
    entry of a record is taken as it is. *)
Definition entry_file (prev : option string) (name : string) : string :=
  match prev with
  | Some file => if String.eqb name same_as_previous then file else name
  | None => name
  end.

Definition decode_entry (prev : option string) (bs : list byte)
  : option ((DebugEntry.t * string) * list byte) :=
  do addr, bs <- get_uint 8 bs;
  do line, bs <- get_int32 bs;
  do discrim, bs <- get_int32 bs;
  do name, bs <- get_string bs;
  Some ((DebugEntry.mk addr line discrim, entry_file prev name), bs).

(** All the entries of a record body, the first of them after an entry
    of file [prev]; an entry is at least 17 bytes. *)
Fixpoint decode_entries (fuel : nat) (prev : option string) (bs : list byte)
  : option (list (DebugEntry.t * string)) :=
  match bs with
  | [] => Some []
  | _ :: _ =>
    match fuel with
    | O => None
    | S fuel =>
      do e, bs <- decode_entry prev bs;
      match decode_entries fuel (Some (snd e)) bs with
      | Some es => Some (e :: es)
      | None => None
      end
    end
  end.

(** The body of a code-load record: the fixed fields, the name, and the
    code, which has to fill the rest of the record. *)
Definition decode_code_load (p : Prefix.t) (body : list byte) : option JitRecord :=
  do pid, bs <- get_uint 4 body;
  do tid, bs <- get_uint 4 bs;
  do vma, bs <- get_uint 8 bs;
  do addr, bs <- get_uint 8 bs;
  do size, bs <- get_uint 8 bs;
  do index, bs <- get_uint 8 bs;
  do name, code <- get_string bs;
  if Z.of_nat (List.length code) =? size
  then Some (CodeLoadRecord (CodeLoad.mk p pid tid vma addr size index) name code)
  else None.

(** The body of a debug-info record: the fixed fields and as many entries
    as the count says, filling the rest of the record. *)
Definition decode_debug_info (p : Prefix.t) (body : list byte) : option JitRecord :=
  do addr, bs <- get_uint 8 body;
  do nr, bs <- get_uint 8 bs;
  match decode_entries (List.length bs) None bs with
  | Some es =>
    if Z.of_nat (List.length es) =? nr
    then Some (DebugInfoRecord (DebugInfo.mk p addr nr) es)
    else None
  | None => None
  end.

(** One record: [Some None] for a record of a kind this reader skips. *)
Definition decode_record (bs : list byte) : option (option JitRecord * list byte) :=
  do id, bs <- get_uint 4 bs;
  do total, bs <- get_uint 4 bs;
  do ts, bs <- get_uint 8 bs;
  if total <? Prefix.sizeof then None else
  do body, rest <- take (Z.to_nat (total - Prefix.sizeof)) bs;
  let p := Prefix.mk id total ts in
  if id =? JIT_CODE_LOAD then
    match decode_code_load p body with
    | Some r => Some (Some r, rest)
    | None => None
    end
  else if id =? JIT_CODE_DEBUG_INFO then
    match decode_debug_info p body with
    | Some r => Some (Some r, rest)
    | None => None
    end
  else Some (None, rest).

(** The records of a stream; a record is at least 16 bytes. *)
Fixpoint decode_records (fuel : nat) (bs : list byte) : option (list JitRecord) :=
  match bs with
  | [] => Some []
  | _ :: _ =>
    match fuel with
    | O => None
    | S fuel =>
      do r, bs <- decode_record bs;
      match decode_records fuel bs with
      | Some rs => Some (match r with Some r => r :: rs | None => rs end)
      | None => None
      end
    end
  end.

Definition decode_stream (bs : list byte) : option (Header.t * list JitRecord) :=
  do hdr, bs <- decode_header bs;
  match decode_records (List.length bs) bs with
  | Some rs => Some (hdr, rs)
  | None => None
  end.

(** ** What the records say about the emitted functions *)

Inductive FunctionInfo :=
| CodeInfo (CodeAddr CodeSize : Z) (SymbolName : string)
| LineTableInfo (CodeAddr : Z) (Lines : list (Z * Z * Z * string)).
                 (* address, line, discriminator, file *)

Definition record_info (r : JitRecord) : FunctionInfo :=
  match r with
  | CodeLoadRecord rec name _ =>
    CodeInfo (CodeLoad.CodeAddr rec) (CodeLoad.CodeSize rec) name
  | DebugInfoRecord rec entries =>
    LineTableInfo (DebugInfo.CodeAddr rec)
      (map (fun e => (DebugEntry.Addr (fst e), DebugEntry.Lineno (fst e),
                      DebugEntry.Discrim (fst e), snd e)) entries)
  end.

(** A line-table entry with the offset of the ELF header applied to its
    address (in 64 bits); line, discriminator and file as they are. *)
Definition line_info (It : Z * DILineInfo) : Z * Z * Z * string :=
  (uint64 (fst It + 0x40), Line (snd It), Discriminator (snd It), FileName (snd It)).

(** What the listener records of one symbol of an emitted object: the
    line table of a function, when it is not empty, and then the function
    itself, when it has code.  (For a function without code that has a
    line table this is the line table alone.) *)
Definition symbol_info (Obj : ObjectFile) (P : SymbolRef * Z) : list FunctionInfo :=
  match getType (fst P), getName (fst P), getAddress (fst P) with
  | Some ST_Function, Some Name, Some Addr =>
    let Lines := getLineInfoForAddressRange Obj Addr (snd P) in
    match Lines with
    | [] => []
    | _ :: _ => [LineTableInfo Addr (map line_info Lines)]
    end
    ++ (if snd P =? 0 then [] else [CodeInfo Addr (snd P) Name])
  | _, _, _ => []
  end.

Definition event_info (e : Event) : list FunctionInfo :=
  match e with
  | ObjectEmitted Obj => flat_map (symbol_info Obj) (computeSymbolSizes Obj)
  | FreeingObject _ => []
  end.

(** What a reader of the stream of a session learns about the emitted
    functions. *)
Definition read_back (w : World) (events : list Event) : option (list FunctionInfo) :=
  match decode_stream (written (Dumpstream (session w events))) with
  | Some (_, recs) => Some (map record_info recs)
  | None => None
  end.

(** The events that the dump format can hold.  Addresses and sizes are
    in the range of [uint64_t]; lines and discriminators, which are
    [uint32_t], are in the range of the [int] of an entry; no name has a
    NUL inside; no entry of a line table after the first has the file
    name that stands for "same as the previous entry"; and the size of
    every record fits the 32-bit size field. *)
Definition no_NUL (s : string) : bool :=
  forallb (fun b => negb (Byte.eqb b x00)) (list_byte_of_string s).

Definition line_fits (It : Z * DILineInfo) : bool :=
  (0 <=? Line (snd It)) && (Line (snd It) <? 2 ^ 31)
  && (0 <=? Discriminator (snd It)) && (Discriminator (snd It) <? 2 ^ 31)
  && no_NUL (FileName (snd It)).

Definition names_its_file (It : Z * DILineInfo) : bool :=
  negb (String.eqb (FileName (snd It)) same_as_previous).

Definition table_fits (Lines : DILineInfoTable) : bool :=
  forallb line_fits Lines && forallb names_its_file (tl Lines).

Definition entry_size (It : Z * DILineInfo) : Z :=
  DebugEntry.sizeof + (strlen (FileName (snd It)) + 1).

Definition debug_info_size (Lines : DILineInfoTable) : Z :=
  fold_left (fun n It => n + entry_size It) Lines DebugInfo.sizeof.

Definition code_load_size (Symbol : string) (CodeSize : Z) : Z :=
  CodeLoad.sizeof + strlen Symbol + 1 + CodeSize.

Definition symbol_fits (Obj : ObjectFile) (P : SymbolRef * Z) : bool :=
  match getType (fst P), getName (fst P), getAddress (fst P) with
  | Some ST_Function, Some Name, Some Addr =>
    (0 <=? Addr) && (Addr <? 2 ^ 64) && (0 <=? snd P) && (snd P <? 2 ^ 64)
    && no_NUL Name && (code_load_size Name (snd P) <? 2 ^ 32)
    && table_fits (getLineInfoForAddressRange Obj Addr (snd P))
    && (debug_info_size (getLineInfoForAddressRange Obj Addr (snd P)) <? 2 ^ 32)
  | _, _, _ => true
  end.

Definition event_fits (e : Event) : bool :=
  match e with
  | ObjectEmitted Obj => forallb (symbol_fits Obj) (computeSymbolSizes Obj)
  | FreeingObject _ => true
  end.

(** ** Concrete worlds and objects

    The inputs of the examples below: a Linux process 4242 whose home
    directory is writable, and a few emitted objects. *)

(** The first 20 bytes of an x86-64 ELF executable. *)
Definition elf_image : list byte :=
  [x7f; "E"; "L"; "F"; x02; x01; x01; x00; x00; x00; x00; x00; x00; x00; x00; x00;
   x03; x00; x3e; x00]%byte.

(** The clock reads 1 s and [i] ns at its [i]-th call. *)
Definition world0 : World := {|
  getpid := 4242;
  clock_gettime := fun i => Some {| tv_sec := 1; tv_nsec := Z.of_nat i |};
  today := "20181030";
  getenv_JITDUMPDIR := None;
  home_directory := Some "/home/u"%string;
  create_directories := fun _ => true;
  unique_suffix := fun _ => Some "a1b2c3"%string;
  openFileForWrite := fun _ => Some 3;
  proc_self_exe := Some elf_image;
  mmap := fun _ => 0x7f0000000000;
  header_write_fails := false;
  memory := fun _ => x90;
  get_threadid := 7
|}.

(** As [world0], but the clock fails from its fourth call on. *)
Definition world_clock_breaks : World := {|
  getpid := 4242;
  clock_gettime := fun i => if (i <? 3)%nat
                            then Some {| tv_sec := 1; tv_nsec := Z.of_nat i |}
                            else None;
  today := "20181030";
  getenv_JITDUMPDIR := None;
  home_directory := Some "/home/u"%string;
  create_directories := fun _ => true;
  unique_suffix := fun _ => Some "a1b2c3"%string;
  openFileForWrite := fun _ => Some 3;
  proc_self_exe := Some elf_image;
  mmap := fun _ => 0x7f0000000000;
  header_write_fails := false;
  memory := fun _ => x90;
  get_threadid := 7
|}.

(** As [world0], but the session directory cannot be created. *)
Definition world_no_directory : World := {|
  getpid := 4242;
  clock_gettime := fun i => Some {| tv_sec := 1; tv_nsec := Z.of_nat i |};
  today := "20181030";
  getenv_JITDUMPDIR := None;
  home_directory := Some "/home/u"%string;
  create_directories := fun _ => false;
  unique_suffix := fun _ => Some "a1b2c3"%string;
  openFileForWrite := fun _ => Some 3;
  proc_self_exe := Some elf_image;
  mmap := fun _ => 0x7f0000000000;
  header_write_fails := false;
  memory := fun _ => x90;
  get_threadid := 7
|}.

Definition function_symbol (Name : string) (Addr : Z) : SymbolRef :=
  {| getType := Some ST_Function; getName := Some Name; getAddress := Some Addr |}.

Definition line_a_c_10 : Z * DILineInfo :=
  (0x1000, {| FileName := "a.c"; Line := 10; Discriminator := 0 |}).

(** ["foo"] at [0x1000], 64 bytes, line table [[(0x1000, "a.c", 10, 0)]]. *)
Definition obj_foo : ObjectFile := {|
  computeSymbolSizes := [(function_symbol "foo" 0x1000, 64)];
  getLineInfoForAddressRange := fun _ _ => [line_a_c_10]
|}.

(** ["bar"] at [0x2000], 32 bytes, no line table. *)
Definition obj_bar : ObjectFile := {|
  computeSymbolSizes := [(function_symbol "bar" 0x2000, 32)];
  getLineInfoForAddressRange := fun _ _ => []
|}.

(** ["foo"] at [0x1000] with no bytes of code, but with a line table. *)
Definition obj_empty_foo : ObjectFile := {|
  computeSymbolSizes := [(function_symbol "foo" 0x1000, 0)];
  getLineInfoForAddressRange := fun _ _ => [line_a_c_10]
|}.

(** ["f"] at [0x1000], 4 GiB of code, no line table. *)
Definition obj_huge : ObjectFile := {|
  computeSymbolSizes := [(function_symbol "f" 0x1000, 2 ^ 32)];
  getLineInfoForAddressRange := fun _ _ => []
|}.

(** ["foo"] at [0x1000], 64 bytes, with the line table [Lines]. *)
Definition obj_foo_with (Lines : DILineInfoTable) : ObjectFile := {|
  computeSymbolSizes := [(function_symbol "foo" 0x1000, 64)];
  getLineInfoForAddressRange := fun _ _ => Lines
|}.

(** Line 11 of the file whose name is the single byte [0xff]. *)
Definition line_ff_11 : Z * DILineInfo :=
  (0x1010, {| FileName := same_as_previous; Line := 11; Discriminator := 0 |}).

(** ["foo"] with the line table [a.c:10] at [0x1000], then line 11 of the
    file of name [0xff] at [0x1010]. *)
Definition obj_ff : ObjectFile := obj_foo_with [line_a_c_10; line_ff_11].

(** ["foo"] with one line: line [2^31] of [a.c]; line 10 of [a.c] with the
    discriminator [2^31]; line 10 of a file whose name has a NUL inside. *)
Definition obj_line_2_31 : ObjectFile :=
  obj_foo_with [(0x1000, {| FileName := "a.c"; Line := 2 ^ 31; Discriminator := 0 |})].

Definition obj_discriminator_2_31 : ObjectFile :=
  obj_foo_with [(0x1000, {| FileName := "a.c"; Line := 10; Discriminator := 2 ^ 31 |})].

Definition obj_NUL_file : ObjectFile :=
  obj_foo_with [(0x1000, {| FileName := string_of_list_byte ["a"; x00; "c"]%byte;
                            Line := 10; Discriminator := 0 |})].

(** A function whose name has a NUL inside, at [0x1000], 64 bytes, no line
    table. *)
Definition obj_NUL : ObjectFile := {|
  computeSymbolSizes :=
    [(function_symbol (string_of_list_byte ["a"; x00; "b"]%byte) 0x1000, 64)];
  getLineInfoForAddressRange := fun _ _ => []
|}.

(** ** The records of a session *)

(** The record [NotifyCode] builds when it is called in state [L]. *)
Definition code_load_record (w : World) (L : PerfJITEventListener)
           (Symbol : string) (CodeAddr CodeSize : Z) : JitRecord :=
  CodeLoadRecord
    (CodeLoad.mk
       (Prefix.mk JIT_CODE_LOAD (uint32 (uint64 (code_load_size Symbol CodeSize)))
                  (fst (perf_get_timestamp w L)))
       (uint32 (Pid L)) (uint32 (get_threadid w)) 0
       CodeAddr CodeSize (CodeGeneration L))
    Symbol (read_memory w CodeAddr CodeSize).

(** The record [NotifyDebug] builds when it is called in state [L]. *)
Definition debug_info_record (w : World) (L : PerfJITEventListener)
           (CodeAddr : Z) (Lines : DILineInfoTable) : JitRecord :=
  DebugInfoRecord
    (DebugInfo.mk
       (Prefix.mk JIT_CODE_DEBUG_INFO (fold_left add_entry_size Lines DebugInfo.sizeof)
                  (fst (perf_get_timestamp w L)))
       CodeAddr (Z.of_nat (List.length Lines)))
    (map (fun It => (make_LineInfo It, FileName (snd It))) Lines).

(** The generation indices of the code-load records, in stream order. *)
Definition code_indices (rs : list JitRecord) : list Z :=
  flat_map (fun r => match r with
                     | CodeLoadRecord rec _ _ => [CodeLoad.CodeIndex rec]
                     | DebugInfoRecord _ _ => []
                     end) rs.

Definition timestamps (rs : list JitRecord) : list Z :=
  map (fun r => Prefix.Timestamp (record_prefix r)) rs.

(** The number of bytes of a record, as the stream receives them. *)
Definition record_size (r : JitRecord) : Z := Z.of_nat (List.length (record_bytes r)).

(** The size field as it stands in the bytes of a record (bytes 4 to 7). *)
Definition TotalSize_in_stream (bs : list byte) : Z := le_value (firstn 4 (skipn 4 bs)).

(** The size of the entries of a debug-info record: for each entry its
    fixed fields and its file name with the NUL. *)
Definition entries_size (entries : list (DebugEntry.t * string)) : Z :=
  fold_right (fun e n => DebugEntry.sizeof + (strlen (snd e) + 1) + n) 0 entries.

(** What holds of every record the listener hands to the stream: the kind,
    the size field as the 32-bit truncation of the size of the record, and
    every field in the range of its type. *)
Definition record_ok (r : JitRecord) : Prop :=
  Prefix.TotalSize (record_prefix r) = uint32 (record_size r)
  /\ 0 <= Prefix.Timestamp (record_prefix r) < 2 ^ 64
  /\ match r with
     | CodeLoadRecord rec name code =>
       Prefix.Id (CodeLoad.Prefix rec) = JIT_CODE_LOAD
       /\ 0 <= CodeLoad.Pid rec < 2 ^ 32
       /\ 0 <= CodeLoad.Tid rec < 2 ^ 32
       /\ CodeLoad.Vma rec = 0
       /\ 0 <= CodeLoad.CodeAddr rec < 2 ^ 64
       /\ 0 < CodeLoad.CodeSize rec < 2 ^ 64
       /\ 0 <= CodeLoad.CodeIndex rec < 2 ^ 64
       /\ Z.of_nat (List.length code) = CodeLoad.CodeSize rec
     | DebugInfoRecord rec entries =>
       Prefix.Id (DebugInfo.Prefix rec) = JIT_CODE_DEBUG_INFO
       /\ 0 <= DebugInfo.CodeAddr rec < 2 ^ 64
       /\ DebugInfo.NrEntry rec = Z.of_nat (List.length entries)
       /\ entries <> []
       /\ Forall (fun e => 0 <= DebugEntry.Addr (fst e) < 2 ^ 64
                         /\ - 2 ^ 31 <= DebugEntry.Lineno (fst e) < 2 ^ 31
                         /\ - 2 ^ 31 <= DebugEntry.Discrim (fst e) < 2 ^ 31)
                 entries
     end.

(** A record that the dump format can hold: its size fits the 32-bit size
    field, its strings have no NUL inside, and no file name after that of
    its first entry is the one that stands for "same as the previous
    entry". *)
Definition record_fits (r : JitRecord) : Prop :=
  record_size r < 2 ^ 32
  /\ match r with
     | CodeLoadRecord _ name _ => no_NUL name = true
     | DebugInfoRecord _ entries =>
       Forall (fun e => no_NUL (snd e) = true) entries
       /\ Forall (fun e => snd e <> same_as_previous) (tl entries)
     end.

(** An entry that reads back as it was written, after an entry of
    another record or at the head of its own. *)
Definition entry_ok (e : DebugEntry.t * string) : Prop :=
  (0 <= DebugEntry.Addr (fst e) < 2 ^ 64
   /\ - 2 ^ 31 <= DebugEntry.Lineno (fst e) < 2 ^ 31
   /\ - 2 ^ 31 <= DebugEntry.Discrim (fst e) < 2 ^ 31)
  /\ no_NUL (snd e) = true.

(** The bytes of a record after its prefix. *)
Definition record_body (r : JitRecord) : list byte :=
  match r with
  | CodeLoadRecord rec name code =>
    le_bytes 4 (CodeLoad.Pid rec) ++ le_bytes 4 (CodeLoad.Tid rec)
    ++ le_bytes 8 (CodeLoad.Vma rec) ++ le_bytes 8 (CodeLoad.CodeAddr rec)
    ++ le_bytes 8 (CodeLoad.CodeSize rec) ++ le_bytes 8 (CodeLoad.CodeIndex rec)
    ++ c_str name ++ code
  | DebugInfoRecord rec entries =>
    le_bytes 8 (DebugInfo.CodeAddr rec) ++ le_bytes 8 (DebugInfo.NrEntry rec)
    ++ flat_map entry_bytes entries
  end.

(** The two bytes that stand for "same file as the previous entry" in the
    format. *)
Definition same_file_sentinel : list byte := [xff; x00].

(** The bytes of one line-table entry in the dump: the eight bytes of
    the address plus 0x40, the four bytes of the line, the four bytes of
    the discriminator, the file name and a NUL. *)
Definition line_bytes (It : Z * DILineInfo) : list byte :=
  le_bytes 8 (fst It + 0x40)
  ++ le_bytes 4 (Line (snd It))
  ++ le_bytes 4 (Discriminator (snd It))
  ++ list_byte_of_string (FileName (snd It)) ++ [x00].

Definition is_code_load (r : JitRecord) : bool :=
  match r with CodeLoadRecord _ _ _ => true | DebugInfoRecord _ _ => false end.

Definition is_debug_info (r : JitRecord) : bool :=
  match r with CodeLoadRecord _ _ _ => false | DebugInfoRecord _ _ => true end.

(** The code address a record is about. *)
Definition record_CodeAddr (r : JitRecord) : Z :=
  match r with
  | CodeLoadRecord rec _ _ => CodeLoad.CodeAddr rec
  | DebugInfoRecord rec _ => DebugInfo.CodeAddr rec
  end.

(** ** The order of the steps of the constructor *)

(** No [mmap] before the first write: the order in which the marker would
    be mapped only once the header is written. *)
Fixpoint marker_after_header (effs : list Effect) : bool :=
  match effs with
  | [] => true
  | E_write _ :: _ => true
  | E_mmap _ :: _ => false
  | _ :: rest => marker_after_header rest
  end.

(** No write before the first [mmap]. *)
Fixpoint header_after_marker (effs : list Effect) : bool :=
  match effs with
  | [] => true
  | E_mmap _ :: _ => true
  | E_write _ :: _ => false
  | _ :: rest => header_after_marker rest
  end.

(** The step [e] of the constructor fails in the world [w].  (The clock is
    judged by [perf_get_timestamp], which the constructor tests first.) *)
Definition step_fails (w : World) (e : Effect) : Prop :=
  match e with
  | E_clock_gettime => False
  | E_create_directories Path => create_directories w Path = false
  | E_createUniqueDirectory Prefix => createUniqueDirectory w Prefix = None
  | E_openFileForWrite Filename => openFileForWrite w Filename = None
  | E_read_self_exe => FillMachine w Header.zero = None
  | E_mmap fd => mmap w fd = MAP_FAILED
  | E_write _ => header_write_fails w = true
  | E_flush => False
  end.

(** The initialisation fails: there is no monotonic clock, or one of the
    steps the constructor takes fails. *)
Definition initialization_fails (w : World) : Prop :=
  fst (perf_get_timestamp w (initial w)) = 0
  \/ exists e, In e (Effects (new_PerfJITEventListener w)) /\ step_fails w e.

(** The header the stream holds after a successful initialisation. *)
Definition header_ok (w : World) (h : Header.t) : Prop :=
  Header.Magic h = LLVM_PERF_JIT_MAGIC
  /\ Header.Version h = LLVM_PERF_JIT_VERSION
  /\ Header.TotalSize h = Header.sizeof
  /\ 0 <= Header.ElfMach h < 2 ^ 32
  /\ Header.Pad1 h = 0
  /\ Header.Pid h = uint32 (getpid w)
  /\ 0 <= Header.Timestamp h < 2 ^ 64
  /\ Header.Flags h = 0.

(** ** The end of a listener *)

(** [CloseMarker()]: the addresses handed to [munmap], and the listener. *)
Definition CloseMarker (L : PerfJITEventListener) : list Z * PerfJITEventListener :=
  if MarkerAddr L =? 0 then ([], L) else
  ([MarkerAddr L], set_MarkerAddr 0 L).

(** The body of the destructor [~PerfJITEventListener()]. *)
Definition delete_PerfJITEventListener (L : PerfJITEventListener)
  : list Z * PerfJITEventListener :=
  if negb (MarkerAddr L =? 0) then CloseMarker L else ([], L).

(** ** What the listener prints *)

(** The lines that the listener prints on [errs()], without the text of
    the error code ([EC.message()]) that some of them end with. *)
Inductive Diagnostic :=
| no_CLOCK_MONOTONIC        (* "kernel does not support CLOCK_MONOTONIC" *)
| no_debugging_directory    (* "could not initialize debugging directory" *)
| no_jit_cache_directory (Path : string)
                            (* "could not create jit cache directory <Path>: ..." *)
| no_unique_jit_cache_directory
                            (* "could not create unique jit cache directory ...: ..." *)
| no_dump_file (Filename : string)
                            (* "could not open JIT dump file <Filename>: ..." *)
| no_self_exe               (* "could not open /proc/self/exe: ..." *)
| no_elf_signature          (* "could not read elf signature from /proc/self/exe" *)
| invalid_elf_signature     (* "Elf object signature is not valid" *)
| no_machine_identification (* "Could not read machine identification" *)
| no_marker.                (* "could not mmap JIT marker" *)

(** What [InitDebuggingDir()] prints. *)
Definition InitDebuggingDir_errs (w : World) : list Diagnostic :=
  let Path :=
    match getenv_JITDUMPDIR w with
    | Some BaseDir => BaseDir
    | None => match home_directory w with
              | Some home => home
              | None => "."%string
              end
    end in
  let Path := (Path ++ "/.debug/jit/")%string in
  if negb (create_directories w Path) then [no_jit_cache_directory Path] else
  let Path := (Path ++ JIT_LANG ++ "-jit-")%string in
  let Path := (Path ++ today w)%string in
  match createUniqueDirectory w Path with
  | None => [no_unique_jit_cache_directory]
  | Some _ => []
  end.

(** What [FillMachine(hdr)] prints. *)
Definition FillMachine_errs (w : World) : list Diagnostic :=
  match proc_self_exe w with
  | None => [no_self_exe]
  | Some image =>
    let id := firstn 16 image in
    if negb (Nat.eqb (List.length id) 16) then [no_elf_signature] else
    if negb (Byte.eqb (nth 0 id x00) x7f) || negb (Byte.eqb (nth 1 id x00) "E")
       || negb (Byte.eqb (nth 2 id x00) "L") || negb (Byte.eqb (nth 3 id x00) "F")
    then [invalid_elf_signature] else
    let info := firstn 4 (skipn 16 image) in
    if negb (Nat.eqb (List.length info) 4) then [no_machine_identification] else []
  end.

(** What [OpenMarker()] prints. *)
Definition OpenMarker_errs (w : World) (L : PerfJITEventListener) : list Diagnostic :=
  if mmap w (DumpFd L) =? MAP_FAILED then [no_marker] else [].

(** What the constructor prints, the lines of the functions it calls
    included. *)
Definition new_PerfJITEventListener_errs (w : World) : list Diagnostic :=
  let L := initial w in
  let '(ts, L) := perf_get_timestamp w L in
  if ts =? 0 then [no_CLOCK_MONOTONIC] else
  let errs := InitDebuggingDir_errs w in
  let '(ok, L) := InitDebuggingDir w L in
  if negb ok then errs ++ [no_debugging_directory] else
  let Filename := dump_Filename L in
  match openFileForWrite w Filename with
  | None => errs ++ [no_dump_file Filename]
  | Some fd =>
    let L := set_DumpFd fd L in
    let errs := errs ++ FillMachine_errs w in
    match FillMachine w Header.zero with
    | None => errs
    | Some _ => errs ++ OpenMarker_errs w L
    end
  end.

(** ** What a session does to its environment *)

(** What [perf_get_timestamp] returns at the [i]-th reading of the clock. *)
Definition timestamp_at (w : World) (i : nat) : Z :=
  match clock_gettime w i with
  | None => 0
  | Some ts => timespec_to_ns ts
  end.

(** The members of the listener that only the constructor sets. *)
Definition configuration (L : PerfJITEventListener) : Z * string * Z * Z :=
  (Pid L, JitPath L, DumpFd L, MarkerAddr L).

(** The effects of handing a record to the stream. *)
Definition is_record_effect (e : Effect) : bool :=
  match e with
  | E_clock_gettime | E_write _ => true
  | _ => false
  end.

(** The effects of an event: those of its records, and the flush. *)
Definition is_stream_effect (e : Effect) : bool :=
  match e with
  | E_clock_gettime | E_write _ | E_flush => true
  | _ => false
  end.

(** The symbols that the loop of [NotifyObjectEmitted] does not skip: the
    functions whose type, name and address are read without error. *)
Definition is_named_function (P : SymbolRef * Z) : bool :=
  match getType (fst P), getName (fst P), getAddress (fst P) with
  | Some ST_Function, Some _, Some _ => true
  | _, _, _ => false
  end.

(** The address, the size and the name of the code-load records. *)
Definition code_loads (rs : list JitRecord) : list (Z * Z * string) :=
  flat_map (fun r => match r with
                     | CodeLoadRecord rec name _ =>
                       [(CodeLoad.CodeAddr rec, CodeLoad.CodeSize rec, name)]
                     | DebugInfoRecord _ _ => []
                     end) rs.

(** The functions with code of an emitted object, with the address and
    the size as the loop of [NotifyObjectEmitted] holds them. *)
Definition functions_with_code (e : Event) : list (Z * Z * string) :=
  match e with
  | ObjectEmitted Obj =>
    flat_map (fun P =>
                match getType (fst P), getName (fst P), getAddress (fst P) with
                | Some ST_Function, Some Name, Some Addr =>
                  if uint64 (snd P) =? 0 then []
                  else [(uint64 Addr, uint64 (snd P), Name)]
                | _, _, _ => []
                end) (computeSymbolSizes Obj)
  | FreeingObject _ => []
  end.

(** As [world0], but with [JITDUMPDIR] set to the empty string. *)
Definition world_JITDUMPDIR_empty : World := {|
  getpid := 4242;
  clock_gettime := fun i => Some {| tv_sec := 1; tv_nsec := Z.of_nat i |};
  today := "20181030";
  getenv_JITDUMPDIR := Some EmptyString;
  home_directory := Some "/home/u"%string;
  create_directories := fun _ => true;
  unique_suffix := fun _ => Some "a1b2c3"%string;
  openFileForWrite := fun _ => Some 3;
  proc_self_exe := Some elf_image;
  mmap := fun _ => 0x7f0000000000;
  header_write_fails := false;
  memory := fun _ => x90;
  get_threadid := 7
|}.

(** * Properties *)

(** ** Integers and bytes *)

Lemma uint32_range v : 0 <= uint32 v < 2 ^ 32.
Proof. unfold uint32. apply Z.mod_pos_bound. lia. Qed.

Lemma uint64_range v : 0 <= uint64 v < 2 ^ 64.
Proof. unfold uint64. apply Z.mod_pos_bound. lia. Qed.

Lemma uint32_small v : 0 <= v < 2 ^ 32 -> uint32 v = v.
Proof. intros H. unfold uint32. now apply Z.mod_small. Qed.

Lemma uint64_small v : 0 <= v < 2 ^ 64 -> uint64 v = v.
Proof. intros H. unfold uint64. now apply Z.mod_small. Qed.

(** Truncating to 64 bits and then to 32 is truncating to 32. *)
Lemma uint32_uint64 v : uint32 (uint64 v) = uint32 v.
Proof.
  unfold uint32, uint64. apply Z.mod_mod_divide.
  exists (2 ^ 32). reflexivity.
Qed.

Lemma uint32_add_l a b : uint32 (uint32 a + b) = uint32 (a + b).
Proof. unfold uint32. now rewrite Zplus_mod_idemp_l. Qed.

Lemma int32_range v : - 2 ^ 31 <= int32 v < 2 ^ 31.
Proof.
  unfold int32. pose proof (Z.mod_pos_bound v (2 ^ 32) ltac:(lia)) as H.
  cbv zeta. destruct (Z.ltb_spec (v mod 2 ^ 32) (2 ^ 31)); lia.
Qed.

Lemma int32_small v : 0 <= v < 2 ^ 31 -> int32 v = v.
Proof.
  intros H. unfold int32. cbv zeta.
  rewrite Z.mod_small by lia.
  destruct (Z.ltb_spec v (2 ^ 31)); lia.
Qed.

(** Reading a 32-bit pattern back as an [int] gives the [int] written. *)
Lemma int32_uint32 v : - 2 ^ 31 <= v < 2 ^ 31 -> int32 (uint32 v) = v.
Proof.
  intros H. unfold int32, uint32. cbv zeta.
  rewrite Z.mod_mod by lia.
  destruct (Z.ltb_spec (v mod 2 ^ 32) (2 ^ 31)) as [Hlt | Hge].
  - destruct (Z.lt_ge_cases v 0) as [Hneg | Hpos].
    + replace v with (v + 2 ^ 32 + (-1) * 2 ^ 32) in Hlt by lia.
      rewrite Z.mod_add in Hlt by lia.
      rewrite Z.mod_small in Hlt by lia. lia.
    + apply Z.mod_small. lia.
  - destruct (Z.lt_ge_cases v 0) as [Hneg | Hpos].
    + replace v with (v + 2 ^ 32 + (-1) * 2 ^ 32) at 1 by lia.
      rewrite Z.mod_add by lia.
      rewrite Z.mod_small by lia. lia.
    + rewrite Z.mod_small in Hge by lia. lia.
Qed.

Lemma Z_of_byte_range b : 0 <= Z_of_byte b < 256.
Proof.
  unfold Z_of_byte. pose proof (Byte.to_N_bounded b). lia.
Qed.

Lemma Z_of_byte_of_Z v : Z_of_byte (byte_of_Z v) = v mod 256.
Proof.
  unfold Z_of_byte, byte_of_Z.
  pose proof (Z.mod_pos_bound v 256 ltac:(lia)) as Hb.
  destruct (Byte.of_N (Z.to_N (v mod 256))) as [b |] eqn:E.
  - apply Byte.to_of_N in E. rewrite E. lia.
  - apply Byte.of_N_None_iff in E. lia.
Qed.

Lemma length_le_bytes n v : List.length (le_bytes n v) = n.
Proof.
  revert v. induction n as [| n IH]; intros v; simpl; [reflexivity |].
  now rewrite IH.
Qed.

Lemma le_value_le_bytes n v :
  le_value (le_bytes n v) = v mod 2 ^ (8 * Z.of_nat n).
Proof.
  revert v. induction n as [| n IH]; intros v.
  - simpl. now rewrite Z.mod_1_r.
  - cbn [le_bytes le_value]. rewrite Z_of_byte_of_Z, IH.
    replace (8 * Z.of_nat (S n)) with (8 + 8 * Z.of_nat n) by lia.
    rewrite Z.pow_add_r by lia.
    change (2 ^ 8) with 256.
    rewrite Z.rem_mul_r by lia. reflexivity.
Qed.

Lemma le_value_4 v : le_value (le_bytes 4 v) = uint32 v.
Proof. now rewrite le_value_le_bytes. Qed.

Lemma byte_of_Z_add v m : byte_of_Z (v + m * 256) = byte_of_Z v.
Proof. unfold byte_of_Z. now rewrite Z.mod_add by lia. Qed.

(** The [n] bytes of an integer only depend on its low [8 n] bits. *)
Lemma le_bytes_add n : forall v m,
  le_bytes n (v + m * 2 ^ (8 * Z.of_nat n)) = le_bytes n v.
Proof.
  induction n as [| n IH]; intros v m; [reflexivity |].
  cbn [le_bytes].
  replace (8 * Z.of_nat (S n)) with (8 * Z.of_nat n + 8) by lia.
  rewrite Z.pow_add_r by lia. change (2 ^ 8) with 256.
  rewrite Z.mul_assoc, byte_of_Z_add, Z.div_add by lia.
  now rewrite IH.
Qed.

Lemma le_bytes_mod n v : le_bytes n (v mod 2 ^ (8 * Z.of_nat n)) = le_bytes n v.
Proof.
  rewrite Z.mod_eq by lia.
  replace (v - 2 ^ (8 * Z.of_nat n) * (v / 2 ^ (8 * Z.of_nat n)))
    with (v + - (v / 2 ^ (8 * Z.of_nat n)) * 2 ^ (8 * Z.of_nat n)) by lia.
  apply le_bytes_add.
Qed.

Lemma le_bytes_uint64 v : le_bytes 8 (uint64 v) = le_bytes 8 v.
Proof. apply (le_bytes_mod 8). Qed.

Lemma le_bytes_int32 v : le_bytes 4 (int32 v) = le_bytes 4 v.
Proof.
  unfold int32. cbv zeta. destruct (v mod 2 ^ 32 <? 2 ^ 31).
  - apply (le_bytes_mod 4).
  - replace (v mod 2 ^ 32 - 2 ^ 32) with (v mod 2 ^ 32 + -1 * 2 ^ (8 * Z.of_nat 4))
      by reflexivity.
    rewrite le_bytes_add. apply (le_bytes_mod 4).
Qed.

Lemma length_list_byte_of_string s :
  List.length (list_byte_of_string s) = String.length s.
Proof.
  unfold list_byte_of_string. rewrite length_map.
  induction s as [| c s IH]; simpl; [reflexivity |]. now rewrite IH.
Qed.

Lemma length_c_str s : Z.of_nat (List.length (c_str s)) = strlen s + 1.
Proof.
  unfold c_str, strlen. rewrite length_app, length_list_byte_of_string.
  simpl. lia.
Qed.

Lemma length_read_memory w CodeAddr CodeSize :
  0 <= CodeSize ->
  Z.of_nat (List.length (read_memory w CodeAddr CodeSize)) = CodeSize.
Proof.
  intros H. unfold read_memory. rewrite length_map, length_seq. lia.
Qed.

Lemma length_Prefix_bytes p : List.length (Prefix.bytes p) = 16%nat.
Proof. unfold Prefix.bytes. now rewrite !length_app, !length_le_bytes. Qed.

Lemma length_Header_bytes h : List.length (Header.bytes h) = 40%nat.
Proof. unfold Header.bytes. now rewrite !length_app, !length_le_bytes. Qed.

Lemma length_CodeLoad_bytes r : List.length (CodeLoad.bytes r) = 56%nat.
Proof.
  unfold CodeLoad.bytes.
  now rewrite !length_app, length_Prefix_bytes, !length_le_bytes.
Qed.

Lemma length_DebugEntry_bytes e : List.length (DebugEntry.bytes e) = 16%nat.
Proof. unfold DebugEntry.bytes. now rewrite !length_app, !length_le_bytes. Qed.

Lemma length_DebugInfo_bytes r : List.length (DebugInfo.bytes r) = 32%nat.
Proof.
  unfold DebugInfo.bytes.
  now rewrite !length_app, length_Prefix_bytes, !length_le_bytes.
Qed.

(** ** The operations of the listener, one call at a time *)

(** Reading the members of an updated listener.  To be used on a listener
    that is given by its members ([destruct L] first): innermost updates
    are evaluated first, so that the state is never copied. *)
Ltac listener_simpl :=
  cbv beta iota zeta delta
      [Dumpstream_write Dumpstream_flush effect emitted tick
       set_JitPath set_DumpFd set_Dumpstream set_MarkerAddr
       set_SuccessfullyInitialized set_CodeGeneration initial
       Pid JitPath DumpFd Dumpstream MarkerAddr SuccessfullyInitialized
       CodeGeneration ClockCalls Effects Emitted written has_error fst snd].

Lemma perf_get_timestamp_range w L : 0 <= fst (perf_get_timestamp w L) < 2 ^ 64.
Proof.
  unfold perf_get_timestamp.
  destruct (clock_gettime w (ClockCalls L)); simpl.
  - apply uint64_range.
  - lia.
Qed.

Lemma perf_get_timestamp_fails w L :
  clock_gettime w (ClockCalls L) = None -> fst (perf_get_timestamp w L) = 0.
Proof. intros H. unfold perf_get_timestamp. now rewrite H. Qed.

Lemma NotifyCode_zero w L Symbol CodeAddr : NotifyCode w L Symbol CodeAddr 0 = L.
Proof. reflexivity. Qed.

(** A call with code appends exactly the record [code_load_record] and
    advances the generation counter. *)
Lemma NotifyCode_emits w L Symbol CodeAddr CodeSize :
  CodeSize <> 0 ->
  let L' := NotifyCode w L Symbol CodeAddr CodeSize in
  let r := code_load_record w L Symbol CodeAddr CodeSize in
  Emitted L' = Emitted L ++ [r]
  /\ written (Dumpstream L') = written (Dumpstream L) ++ record_bytes r
  /\ CodeGeneration L' = uint64 (CodeGeneration L + 1)
  /\ SuccessfullyInitialized L' = SuccessfullyInitialized L
  /\ ClockCalls L' = S (ClockCalls L).
Proof.
  intros Hs. unfold NotifyCode, code_load_record, code_load_size.
  destruct (Z.eqb_spec CodeSize 0) as [-> | _]; [contradiction |].
  unfold perf_get_timestamp. destruct L as [pid path fd [bs err] marker ini gen calls eff em].
  destruct (clock_gettime w _); listener_simpl;
    cbn [record_bytes]; rewrite <- !app_assoc; repeat split; reflexivity.
Qed.

Lemma NotifyDebug_nil w L CodeAddr : NotifyDebug w L CodeAddr [] = L.
Proof. reflexivity. Qed.

(** The write loop of [NotifyDebug] appends the entries in the order of
    the line table and touches nothing else. *)
Lemma write_loop Lines : forall L,
  let L' := fold_left write_entry Lines L in
  written (Dumpstream L') =
    written (Dumpstream L)
    ++ flat_map (fun It => entry_bytes (make_LineInfo It, FileName (snd It))) Lines
  /\ Emitted L' = Emitted L
  /\ CodeGeneration L' = CodeGeneration L
  /\ SuccessfullyInitialized L' = SuccessfullyInitialized L
  /\ ClockCalls L' = ClockCalls L.
Proof.
  induction Lines as [| It Lines IH]; intros L.
  - cbn. now rewrite app_nil_r.
  - cbn [fold_left flat_map].
    destruct (IH (write_entry L It)) as (Hw & He & Hg & Hi & Hc).
    cbv zeta. rewrite Hw, He, Hg, Hi, Hc.
    unfold write_entry, entry_bytes.
    destruct L as [pid path fd [bs err] marker ini gen calls eff em].
    listener_simpl. rewrite <- !app_assoc. repeat split; reflexivity.
Qed.

Lemma flat_map_map {A B C} (f : B -> list C) (g : A -> B) (l : list A) :
  flat_map f (map g l) = flat_map (fun x => f (g x)) l.
Proof. induction l as [| x l IH]; simpl; [reflexivity |]. now rewrite IH. Qed.

Lemma emitted_members r L :
  Emitted (emitted r L) = Emitted L ++ [r]
  /\ Dumpstream (emitted r L) = Dumpstream L
  /\ CodeGeneration (emitted r L) = CodeGeneration L
  /\ SuccessfullyInitialized (emitted r L) = SuccessfullyInitialized L
  /\ ClockCalls (emitted r L) = ClockCalls L.
Proof. destruct L. repeat split; reflexivity. Qed.

Lemma Dumpstream_flush_members L :
  Emitted (Dumpstream_flush L) = Emitted L
  /\ Dumpstream (Dumpstream_flush L) = Dumpstream L
  /\ CodeGeneration (Dumpstream_flush L) = CodeGeneration L
  /\ SuccessfullyInitialized (Dumpstream_flush L) = SuccessfullyInitialized L.
Proof. destruct L. repeat split; reflexivity. Qed.

(** A call with a line table appends exactly the record
    [debug_info_record] and leaves the generation counter alone. *)
Lemma NotifyDebug_emits w L CodeAddr Lines :
  Lines <> [] ->
  let L' := NotifyDebug w L CodeAddr Lines in
  let r := debug_info_record w L CodeAddr Lines in
  Emitted L' = Emitted L ++ [r]
  /\ written (Dumpstream L') = written (Dumpstream L) ++ record_bytes r
  /\ CodeGeneration L' = CodeGeneration L
  /\ SuccessfullyInitialized L' = SuccessfullyInitialized L
  /\ ClockCalls L' = S (ClockCalls L).
Proof.
  intros Hl. destruct Lines as [| It0 Lines0]; [contradiction |].
  unfold NotifyDebug, debug_info_record, perf_get_timestamp.
  set (Lines := It0 :: Lines0).
  destruct (clock_gettime w (ClockCalls L)); cbv zeta; cbn [fst];
    match goal with |- context [emitted ?r (fold_left write_entry Lines ?L1)] =>
      destruct (emitted_members r (fold_left write_entry Lines L1))
        as (E1 & E2 & E3 & E4 & E5);
      destruct (write_loop Lines L1) as (Hw & He & Hg & Hi & Hc)
    end;
    cbv zeta in Hw, He, Hg, Hi, Hc;
    rewrite E1, E2, E3, E4, E5, Hw, He, Hg, Hi, Hc;
    destruct L as [pid path fd [bs err] marker ini gen calls eff em];
    listener_simpl; cbn [record_bytes];
    rewrite flat_map_map, <- app_assoc; repeat split; reflexivity.
Qed.

(** ** Sizes of records *)

Lemma entries_size_length entries :
  Z.of_nat (List.length (flat_map entry_bytes entries)) = entries_size entries.
Proof.
  induction entries as [| e entries IH]; [reflexivity |].
  cbn [flat_map entries_size fold_right]. fold (entries_size entries).
  rewrite length_app, Nat2Z.inj_add, IH. unfold entry_bytes.
  rewrite length_app, Nat2Z.inj_add, length_DebugEntry_bytes, length_c_str.
  unfold DebugEntry.sizeof. lia.
Qed.

Lemma record_size_CodeLoad rec name code :
  record_size (CodeLoadRecord rec name code)
  = CodeLoad.sizeof + strlen name + 1 + Z.of_nat (List.length code).
Proof.
  unfold record_size. cbn [record_bytes].
  rewrite !length_app, !Nat2Z.inj_add, length_CodeLoad_bytes, length_c_str.
  unfold CodeLoad.sizeof. lia.
Qed.

Lemma record_size_DebugInfo rec entries :
  record_size (DebugInfoRecord rec entries) = DebugInfo.sizeof + entries_size entries.
Proof.
  unfold record_size. cbn [record_bytes].
  rewrite length_app, Nat2Z.inj_add, length_DebugInfo_bytes, entries_size_length.
  unfold DebugInfo.sizeof. lia.
Qed.

Lemma record_size_min r : Prefix.sizeof <= record_size r.
Proof.
  destruct r as [rec name code | rec entries].
  - rewrite record_size_CodeLoad. unfold Prefix.sizeof, CodeLoad.sizeof, strlen. lia.
  - rewrite record_size_DebugInfo. unfold Prefix.sizeof, DebugInfo.sizeof.
    assert (0 <= entries_size entries); [| lia].
    rewrite <- entries_size_length. lia.
Qed.

(** The size field is bytes 4 to 7 of the record. *)
Lemma TotalSize_in_stream_record r rest :
  TotalSize_in_stream (record_bytes r ++ rest)
  = uint32 (Prefix.TotalSize (record_prefix r)).
Proof.
  unfold TotalSize_in_stream.
  destruct r as [rec name code | rec entries]; cbn [record_bytes record_prefix];
    [unfold CodeLoad.bytes | unfold DebugInfo.bytes]; unfold Prefix.bytes;
    rewrite <- !app_assoc;
    (rewrite skipn_app, skipn_all2 by (rewrite length_le_bytes; lia));
    rewrite length_le_bytes; cbn [Nat.sub app skipn];
    (rewrite firstn_app, firstn_all2 by (rewrite length_le_bytes; lia));
    rewrite length_le_bytes; cbn [Nat.sub firstn]; rewrite app_nil_r;
    apply le_value_4.
Qed.

Lemma sum_entry_sizes Lines : forall n,
  fold_left (fun n It => n + entry_size It) Lines n
  = n + entries_size (map (fun It => (make_LineInfo It, FileName (snd It))) Lines).
Proof.
  induction Lines as [| It Lines IH]; intros n; cbn [fold_left map entries_size fold_right].
  - lia.
  - fold (entries_size (map (fun It => (make_LineInfo It, FileName (snd It))) Lines)).
    rewrite IH. unfold entry_size. cbn [snd]. lia.
Qed.

(** The size loop of [NotifyDebug] computes the sum of the sizes, cut to
    32 bits. *)
Lemma size_loop Lines : forall n,
  uint32 (fold_left add_entry_size Lines n)
  = uint32 (fold_left (fun n It => n + entry_size It) Lines n).
Proof.
  induction Lines as [| It Lines IH]; intros n; cbn [fold_left]; [reflexivity |].
  rewrite IH, !sum_entry_sizes.
  unfold add_entry_size, entry_size. cbv zeta.
  rewrite uint32_add_l, <- Z.add_assoc, uint32_add_l.
  f_equal. lia.
Qed.

Lemma size_loop_wrapped It Lines n :
  fold_left add_entry_size (It :: Lines) n
  = uint32 (fold_left add_entry_size (It :: Lines) n).
Proof.
  revert It n. induction Lines as [| It' Lines IH]; intros It n.
  - cbn [fold_left]. unfold add_entry_size, uint32.
    now rewrite Z.mod_mod by lia.
  - change (fold_left add_entry_size (It :: It' :: Lines) n)
      with (fold_left add_entry_size (It' :: Lines) (add_entry_size n It)).
    apply IH.
Qed.

Lemma debug_info_size_eq Lines :
  debug_info_size Lines
  = DebugInfo.sizeof
    + entries_size (map (fun It => (make_LineInfo It, FileName (snd It))) Lines).
Proof. unfold debug_info_size. apply sum_entry_sizes. Qed.

(** ** Every record the listener builds is well formed *)

Lemma code_load_record_ok w L Symbol CodeAddr CodeSize :
  0 <= CodeAddr < 2 ^ 64 -> 0 < CodeSize < 2 ^ 64 ->
  0 <= CodeGeneration L < 2 ^ 64 ->
  record_ok (code_load_record w L Symbol CodeAddr CodeSize).
Proof.
  intros Ha Hs Hg. unfold record_ok, code_load_record.
  rewrite record_size_CodeLoad, length_read_memory by lia.
  cbn [record_prefix CodeLoad.Prefix Prefix.TotalSize Prefix.Timestamp Prefix.Id
       CodeLoad.Pid CodeLoad.Tid CodeLoad.Vma CodeLoad.CodeAddr CodeLoad.CodeSize
       CodeLoad.CodeIndex].
  rewrite uint32_uint64. unfold code_load_size.
  repeat split; try apply perf_get_timestamp_range; try apply uint32_range; lia.
Qed.

Lemma debug_info_record_ok w L CodeAddr Lines :
  0 <= CodeAddr < 2 ^ 64 -> Lines <> [] ->
  record_ok (debug_info_record w L CodeAddr Lines).
Proof.
  intros Ha Hl. unfold record_ok, debug_info_record.
  rewrite record_size_DebugInfo.
  cbn [record_prefix DebugInfo.Prefix Prefix.TotalSize Prefix.Timestamp Prefix.Id
       DebugInfo.CodeAddr DebugInfo.NrEntry].
  rewrite length_map.
  repeat split; try apply perf_get_timestamp_range; try lia.
  - destruct Lines as [| It Lines]; [contradiction |].
    rewrite size_loop_wrapped, size_loop.
    fold (debug_info_size (It :: Lines)). now rewrite debug_info_size_eq.
  - destruct Lines; [contradiction | discriminate].
  - apply Forall_forall. intros e He. apply in_map_iff in He.
    destruct He as (It & <- & _). unfold make_LineInfo.
    cbn [fst DebugEntry.Addr DebugEntry.Lineno DebugEntry.Discrim].
    pose proof (uint64_range (fst It + 64)).
    pose proof (int32_range (Line (snd It))).
    pose proof (int32_range (Discriminator (snd It))).
    repeat split; lia.
Qed.

(** ** Sessions *)

(** Whatever [NotifyDebug], [NotifyCode] (called on 64-bit values) and
    the flush preserve is preserved by every event. *)
Section Invariants.
Variable w : World.
Variable P : PerfJITEventListener -> Prop.
Hypothesis P_NotifyDebug :
  forall L CodeAddr Lines, P L -> P (NotifyDebug w L (uint64 CodeAddr) Lines).
Hypothesis P_NotifyCode :
  forall L Symbol CodeAddr CodeSize,
    P L -> P (NotifyCode w L Symbol (uint64 CodeAddr) (uint64 CodeSize)).
Hypothesis P_flush : forall L, P L -> P (Dumpstream_flush L).

Lemma notify_symbol_preserves Obj L S : P L -> P (notify_symbol w Obj L S).
Proof.
  intros HL. unfold notify_symbol.
  destruct (getType (fst S)) as [ty |]; [| assumption].
  destruct (is_function ty); cbn [negb]; [| assumption].
  destruct (getName (fst S)) as [Name |]; [| assumption].
  destruct (getAddress (fst S)) as [Addr |]; [| assumption].
  cbv zeta. apply P_NotifyCode, P_NotifyDebug, HL.
Qed.

Lemma symbols_preserve Obj Syms : forall L,
  P L -> P (fold_left (notify_symbol w Obj) Syms L).
Proof.
  induction Syms as [| S Syms IH]; intros L HL; cbn [fold_left]; [assumption |].
  apply IH, notify_symbol_preserves, HL.
Qed.

Lemma notify_preserves L e : P L -> P (notify w L e).
Proof.
  intros HL. destruct e as [Obj | Obj]; cbn [notify]; [| assumption].
  unfold NotifyObjectEmitted.
  destruct (SuccessfullyInitialized L); cbn [negb]; [| assumption].
  apply P_flush, symbols_preserve, HL.
Qed.

Lemma events_preserve events : forall L,
  P L -> P (fold_left (notify w) events L).
Proof.
  induction events as [| e events IH]; intros L HL; cbn [fold_left]; [assumption |].
  apply IH, notify_preserves, HL.
Qed.
End Invariants.

(** ** The constructor *)

(** Takes the constructor apart, one outcome of the environment after
    the other; every state on the way is evaluated to its members. *)
Ltac constructor_eval :=
  cbv beta iota zeta delta
      [new_PerfJITEventListener perf_get_timestamp InitDebuggingDir OpenMarker
       createUniqueDirectory dump_Filename negb
       Dumpstream_write Dumpstream_flush effect emitted tick
       set_JitPath set_DumpFd set_Dumpstream set_MarkerAddr
       set_SuccessfullyInitialized set_CodeGeneration initial
       Pid JitPath DumpFd Dumpstream MarkerAddr SuccessfullyInitialized
       CodeGeneration ClockCalls Effects Emitted written has_error fst snd].

Ltac constructor_cases :=
  constructor_eval;
  repeat match goal with
         | |- context [match ?x with _ => _ end] =>
           lazymatch x with
           | context [match _ with _ => _ end] => fail
           | _ => destruct x eqn:?; constructor_eval
           end
         end.

Lemma new_listener_fresh w :
  let L := new_PerfJITEventListener w in
  Emitted L = [] /\ CodeGeneration L = 1 /\ Pid L = getpid w.
Proof.
  cbv zeta. constructor_cases; repeat split; reflexivity.
Qed.

(** ** Invariants of a session *)

(** An Inert listener ignores every event. *)
Lemma Inert_notify w L e : SuccessfullyInitialized L = false -> notify w L e = L.
Proof.
  intros H. destruct e as [Obj | Obj]; cbn [notify]; [| reflexivity].
  unfold NotifyObjectEmitted. now rewrite H.
Qed.

Lemma Inert_events w events : forall L,
  SuccessfullyInitialized L = false -> fold_left (notify w) events L = L.
Proof.
  induction events as [| e events IH]; intros L H; cbn [fold_left]; [reflexivity |].
  rewrite Inert_notify by assumption. now apply IH.
Qed.

Lemma NotifyCode_Initialized w L Symbol CodeAddr CodeSize :
  SuccessfullyInitialized (NotifyCode w L Symbol CodeAddr CodeSize)
  = SuccessfullyInitialized L.
Proof.
  destruct (Z.eq_dec CodeSize 0) as [-> | Hs]; [reflexivity |].
  apply (NotifyCode_emits w L Symbol CodeAddr CodeSize Hs).
Qed.

Lemma NotifyDebug_Initialized w L CodeAddr Lines :
  SuccessfullyInitialized (NotifyDebug w L CodeAddr Lines)
  = SuccessfullyInitialized L.
Proof.
  destruct Lines as [| It Lines]; [reflexivity |].
  apply (NotifyDebug_emits w L CodeAddr (It :: Lines)). discriminate.
Qed.

(** No event changes whether the listener is Active. *)
Lemma Initialized_events w events L :
  SuccessfullyInitialized (fold_left (notify w) events L)
  = SuccessfullyInitialized L.
Proof.
  apply (events_preserve w
           (fun L' => SuccessfullyInitialized L' = SuccessfullyInitialized L));
    try reflexivity; intros *; intros H.
  - now rewrite NotifyDebug_Initialized.
  - now rewrite NotifyCode_Initialized.
  - destruct (Dumpstream_flush_members L0) as (_ & _ & _ & ->). exact H.
Qed.

(** The stream holds what it held after the constructor, followed by the
    bytes of the records, in the order in which they were built. *)
Lemma stream_of_records w events :
  let L := session w events in
  written (Dumpstream L)
  = written (Dumpstream (new_PerfJITEventListener w))
    ++ flat_map record_bytes (Emitted L).
Proof.
  cbv zeta. unfold session.
  set (hdr := written (Dumpstream (new_PerfJITEventListener w))).
  apply (events_preserve w
           (fun L => written (Dumpstream L) = hdr ++ flat_map record_bytes (Emitted L))).
  - intros L CodeAddr Lines H.
    destruct Lines as [| It Lines]; [exact H |].
    destruct (NotifyDebug_emits w L (uint64 CodeAddr) (It :: Lines))
      as (He & Hw & _); [discriminate |].
    rewrite He, Hw, H, flat_map_app. cbn [flat_map].
    now rewrite app_nil_r, app_assoc.
  - intros L Symbol CodeAddr CodeSize H.
    destruct (Z.eq_dec (uint64 CodeSize) 0) as [-> | Hs]; [exact H |].
    destruct (NotifyCode_emits w L Symbol (uint64 CodeAddr) (uint64 CodeSize) Hs)
      as (He & Hw & _).
    rewrite He, Hw, H, flat_map_app. cbn [flat_map].
    now rewrite app_nil_r, app_assoc.
  - intros L H. destruct (Dumpstream_flush_members L) as (-> & -> & _). exact H.
  - destruct (new_listener_fresh w) as (He & _). rewrite He.
    subst hdr. cbn [flat_map]. now rewrite app_nil_r.
Qed.

(** Every record of a session is well formed, and the generation counter
    stays a 64-bit value. *)
Lemma records_ok w events :
  let L := session w events in
  Forall record_ok (Emitted L) /\ 0 <= CodeGeneration L < 2 ^ 64.
Proof.
  cbv zeta. unfold session.
  apply (events_preserve w
           (fun L => Forall record_ok (Emitted L) /\ 0 <= CodeGeneration L < 2 ^ 64)).
  - intros L CodeAddr Lines [Hok Hg].
    destruct Lines as [| It Lines]; [now split |].
    destruct (NotifyDebug_emits w L (uint64 CodeAddr) (It :: Lines))
      as (He & _ & Hg' & _); [discriminate |].
    rewrite He, Hg'. split; [| exact Hg].
    apply Forall_app. split; [exact Hok |].
    constructor; [| constructor].
    apply debug_info_record_ok; [apply uint64_range | discriminate].
  - intros L Symbol CodeAddr CodeSize [Hok Hg].
    destruct (Z.eq_dec (uint64 CodeSize) 0) as [E | Hs]; [rewrite E; now split |].
    destruct (NotifyCode_emits w L Symbol (uint64 CodeAddr) (uint64 CodeSize) Hs)
      as (He & _ & Hg' & _).
    rewrite He, Hg'. split; [| apply uint64_range].
    apply Forall_app. split; [exact Hok |].
    constructor; [| constructor].
    pose proof (uint64_range CodeSize).
    apply code_load_record_ok; [apply uint64_range | lia | exact Hg].
  - intros L H. destruct (Dumpstream_flush_members L) as (-> & _ & -> & _). exact H.
  - destruct (new_listener_fresh w) as (He & Hg & _). rewrite He, Hg.
    split; [constructor | lia].
Qed.

(** ** The size field of a record (claim C1) *)

Lemma record_ok_sizes r :
  record_ok r ->
  match r with
  | CodeLoadRecord rec name code =>
    0 < CodeLoad.CodeSize rec
    /\ record_size r = CodeLoad.sizeof + strlen name + 1 + CodeLoad.CodeSize rec
  | DebugInfoRecord rec entries =>
    record_size r = DebugInfo.sizeof + entries_size entries
  end.
Proof.
  intros (_ & _ & H). destruct r as [rec name code | rec entries].
  - destruct H as (_ & _ & _ & _ & _ & Hs & _ & Hc).
    rewrite record_size_CodeLoad, Hc. split; [lia | reflexivity].
  - apply record_size_DebugInfo.
Qed.

(** C1, as amended: in every session, the stream is the bytes the
    constructor wrote followed by the bytes of the records, and the
    [TotalSize] of the prefix of every record, in the struct and in bytes
    4 to 7 of the record in the stream, is the number of bytes written for
    that record modulo 2^32, hence that number whenever it is below 2^32.
    The number of bytes of a code-load record (which has [CodeSize > 0])
    is [sizeof(rec) + len(name) + 1 + CodeSize]; that of a debug-info
    record is [sizeof(rec)] plus, for each entry,
    [sizeof(LLVMPerfJitDebugEntry) + len(file) + 1]. *)
Theorem C1_TotalSize_is_size_modulo_2_32 (w : World) (events : list Event) :
  let L := session w events in
  written (Dumpstream L)
  = written (Dumpstream (new_PerfJITEventListener w))
    ++ flat_map record_bytes (Emitted L)
  /\ forall r, In r (Emitted L) ->
       Prefix.TotalSize (record_prefix r) = record_size r mod 2 ^ 32
       /\ TotalSize_in_stream (record_bytes r) = record_size r mod 2 ^ 32
       /\ (record_size r < 2 ^ 32 ->
           Prefix.TotalSize (record_prefix r) = record_size r)
       /\ match r with
          | CodeLoadRecord rec name code =>
            0 < CodeLoad.CodeSize rec
            /\ record_size r
               = CodeLoad.sizeof + strlen name + 1 + CodeLoad.CodeSize rec
          | DebugInfoRecord rec entries =>
            record_size r = DebugInfo.sizeof + entries_size entries
          end.
Proof.
  cbv zeta. split; [apply stream_of_records |].
  intros r Hr.
  destruct (records_ok w events) as [Hok _].
  rewrite Forall_forall in Hok. specialize (Hok r Hr).
  pose proof (record_ok_sizes r Hok) as Hsz.
  destruct Hok as (Ht & _ & _).
  fold (uint32 (record_size r)).
  repeat split.
  - exact Ht.
  - rewrite <- (app_nil_r (record_bytes r)), TotalSize_in_stream_record, Ht.
    unfold uint32. apply Z.mod_mod. lia.
  - intros Hlt. rewrite Ht. apply uint32_small.
    pose proof (record_size_min r). unfold Prefix.sizeof in *. lia.
  - exact Hsz.
Qed.

(** C1, as amended, at the session that emits [obj_foo]: the stream is
    the header followed by the bytes of the two records. *)
Lemma C1_witness :
  written (Dumpstream (session world0 [ObjectEmitted obj_foo]))
  = written (Dumpstream (new_PerfJITEventListener world0))
    ++ flat_map record_bytes (Emitted (session world0 [ObjectEmitted obj_foo])).
Proof.
  exact (proj1 (C1_TotalSize_is_size_modulo_2_32 world0 [ObjectEmitted obj_foo])).
Defined.

(** A session that emits one object with one function, which has code
    and no line table. *)
Lemma single_function_session w Name Addr Size Lines :
  SuccessfullyInitialized (new_PerfJITEventListener w) = true ->
  uint64 Size <> 0 ->
  (forall a s, Lines a s = []) ->
  Emitted (session w [ObjectEmitted
                        {| computeSymbolSizes := [(function_symbol Name Addr, Size)];
                           getLineInfoForAddressRange := Lines |}])
  = [code_load_record w (new_PerfJITEventListener w) Name (uint64 Addr) (uint64 Size)].
Proof.
  intros Hini Hsize Hlines.
  unfold session. cbn [fold_left notify]. unfold NotifyObjectEmitted.
  rewrite Hini. cbn [negb computeSymbolSizes fold_left].
  unfold notify_symbol, function_symbol.
  cbn [fst snd getType getName getAddress is_function negb getLineInfoForAddressRange].
  rewrite Hlines, NotifyDebug_nil.
  match goal with |- context [Dumpstream_flush ?X] =>
    destruct (Dumpstream_flush_members X) as (-> & _)
  end.
  destruct (NotifyCode_emits w (new_PerfJITEventListener w)
              Name (uint64 Addr) (uint64 Size) Hsize) as (He & _).
  rewrite He. destruct (new_listener_fresh w) as (Hnil & _). now rewrite Hnil.
Qed.

(** C1 fails as stated: the code-load record of a function of 2^32 bytes
    named ["f"] says 58 in its size field, and 2^32 + 58 bytes are written
    for it. *)
Lemma C1_counterexample :
  exists r,
    In r (Emitted (session world0 [ObjectEmitted obj_huge]))
    /\ Prefix.TotalSize (record_prefix r) = 58
    /\ record_size r = 2 ^ 32 + 58
    /\ Prefix.TotalSize (record_prefix r) <> record_size r.
Proof.
  assert (Hsize : uint64 (2 ^ 32) = 2 ^ 32) by (apply uint64_small; lia).
  eexists. split.
  - unfold obj_huge. rewrite single_function_session.
    + left. reflexivity.
    + vm_compute. reflexivity.
    + rewrite Hsize. lia.
    + reflexivity.
  - unfold code_load_record.
    rewrite record_size_CodeLoad, length_read_memory by (rewrite Hsize; lia).
    cbn [record_prefix CodeLoad.Prefix Prefix.TotalSize].
    rewrite uint32_uint64, Hsize.
    assert (E : code_load_size "f" (2 ^ 32) = 2 ^ 32 + 58) by reflexivity.
    rewrite E.
    assert (E' : uint32 (2 ^ 32 + 58) = 58) by reflexivity.
    rewrite E'. change (strlen "f") with 1. unfold CodeLoad.sizeof.
    repeat split; lia.
Qed.

(** ** The generation index (claim C4) *)

Lemma code_indices_app rs rs' :
  code_indices (rs ++ rs') = code_indices rs ++ code_indices rs'.
Proof. unfold code_indices. apply flat_map_app. Qed.

Lemma uint64_succ a : uint64 (uint64 a + 1) = uint64 (a + 1).
Proof. unfold uint64. now rewrite Zplus_mod_idemp_l. Qed.

(** The [k]-th code-load record carries [k] (as a 64-bit value), and the
    counter is one more than the number of code-load records. *)
Lemma indices_count_up w events :
  let L := session w events in
  let ix := code_indices (Emitted L) in
  ix = map (fun k => uint64 (Z.of_nat k)) (seq 1 (List.length ix))
  /\ CodeGeneration L = uint64 (Z.of_nat (S (List.length ix))).
Proof.
  cbv zeta. unfold session.
  apply (events_preserve w
    (fun L =>
       code_indices (Emitted L)
       = map (fun k => uint64 (Z.of_nat k))
             (seq 1 (List.length (code_indices (Emitted L))))
       /\ CodeGeneration L
          = uint64 (Z.of_nat (S (List.length (code_indices (Emitted L))))))).
  - intros L CodeAddr Lines H.
    destruct Lines as [| It Lines]; [exact H |].
    destruct (NotifyDebug_emits w L (uint64 CodeAddr) (It :: Lines))
      as (He & _ & Hg & _); [discriminate |].
    rewrite He, Hg, code_indices_app. cbn [code_indices debug_info_record flat_map].
    rewrite app_nil_r. exact H.
  - intros L Symbol CodeAddr CodeSize [Hix Hg].
    destruct (Z.eq_dec (uint64 CodeSize) 0) as [E | Hs]; [rewrite E; now split |].
    destruct (NotifyCode_emits w L Symbol (uint64 CodeAddr) (uint64 CodeSize) Hs)
      as (He & _ & Hg' & _).
    rewrite He, Hg', code_indices_app.
    cbn [code_indices code_load_record flat_map CodeLoad.CodeIndex app].
    fold (code_indices (Emitted L)).
    rewrite length_app. cbn [List.length].
    rewrite Nat.add_1_r, seq_S, map_app. cbn [map Nat.add].
    rewrite <- Hix, Hg. split; [reflexivity |].
    rewrite uint64_succ. f_equal. lia.
  - intros L H. destruct (Dumpstream_flush_members L) as (-> & _ & -> & _). exact H.
  - destruct (new_listener_fresh w) as (He & Hg & _). rewrite He, Hg.
    split; reflexivity.
Qed.

Lemma seq_increasing n : forall a,
  StronglySorted Z.lt (map Z.of_nat (seq a n)).
Proof.
  induction n as [| n IH]; intros a; cbn [seq map]; constructor.
  - apply IH.
  - apply Forall_forall. intros z Hz. apply in_map_iff in Hz.
    destruct Hz as (k & <- & Hk). apply in_seq in Hk. lia.
Qed.

Lemma increasing_NoDup l : StronglySorted Z.lt l -> NoDup l.
Proof.
  induction 1 as [| a l Hs IH Hall]; constructor; [| exact IH].
  intros Hin. rewrite Forall_forall in Hall. specialize (Hall a Hin). lia.
Qed.

(** C4: in a session with fewer than 2^64 code-load records, the
    [CodeIndex] values of the code-load records are 1, 2, 3, ... in stream
    order: the first is 1, they are strictly increasing and none repeats;
    the counter has advanced once for each of them.  One call of
    [NotifyCode] with code advances the 64-bit counter by one and writes
    its old value; a call without code and a call of [NotifyDebug] leave
    it alone. *)
Theorem C4_CodeIndex_strictly_increasing (w : World) (events : list Event) :
  let L := session w events in
  let ix := code_indices (Emitted L) in
  Z.of_nat (List.length ix) < 2 ^ 64 ->
  ix = map Z.of_nat (seq 1 (List.length ix))
  /\ StronglySorted Z.lt ix
  /\ NoDup ix
  /\ CodeGeneration L = uint64 (1 + Z.of_nat (List.length ix))
  /\ (forall L0 Symbol CodeAddr CodeSize,
        CodeSize <> 0 ->
        let L1 := NotifyCode w L0 Symbol CodeAddr CodeSize in
        CodeGeneration L1 = uint64 (CodeGeneration L0 + 1)
        /\ code_indices (Emitted L1)
           = code_indices (Emitted L0) ++ [CodeGeneration L0])
  /\ (forall L0 Symbol CodeAddr, NotifyCode w L0 Symbol CodeAddr 0 = L0)
  /\ (forall L0 CodeAddr Lines,
        let L1 := NotifyDebug w L0 CodeAddr Lines in
        CodeGeneration L1 = CodeGeneration L0
        /\ code_indices (Emitted L1) = code_indices (Emitted L0)).
Proof.
  cbv zeta. intros Hn.
  destruct (indices_count_up w events) as [Hix Hg]. cbv zeta in Hix, Hg.
  set (ix := code_indices (Emitted (session w events))) in *.
  assert (E : ix = map Z.of_nat (seq 1 (List.length ix))).
  { rewrite Hix at 1. apply map_ext_in. intros k Hk. apply in_seq in Hk.
    apply uint64_small. lia. }
  split; [exact E |].
  split; [rewrite E; apply seq_increasing |].
  split; [rewrite E; apply increasing_NoDup, seq_increasing |].
  split; [rewrite Hg; f_equal; lia |].
  split; [| split].
  - intros L0 Symbol CodeAddr CodeSize Hs.
    destruct (NotifyCode_emits w L0 Symbol CodeAddr CodeSize Hs) as (He & _ & Hg' & _).
    rewrite He, Hg', code_indices_app. split; reflexivity.
  - intros. reflexivity.
  - intros L0 CodeAddr Lines.
    destruct Lines as [| It Lines]; [now split |].
    destruct (NotifyDebug_emits w L0 CodeAddr (It :: Lines))
      as (He & _ & Hg' & _); [discriminate |].
    rewrite He, Hg', code_indices_app.
    cbn [code_indices debug_info_record flat_map]. rewrite app_nil_r.
    split; reflexivity.
Qed.

(** C4 at the session that emits [obj_foo] and then [obj_bar]. *)
Lemma C4_witness :
  Z.of_nat (List.length (code_indices
     (Emitted (session world0 [ObjectEmitted obj_foo; ObjectEmitted obj_bar])))) < 2 ^ 64
  /\ code_indices
       (Emitted (session world0 [ObjectEmitted obj_foo; ObjectEmitted obj_bar]))
     = map Z.of_nat (seq 1 (List.length (code_indices
         (Emitted (session world0 [ObjectEmitted obj_foo; ObjectEmitted obj_bar]))))).
Proof.
  assert (H : Z.of_nat (List.length (code_indices
     (Emitted (session world0 [ObjectEmitted obj_foo; ObjectEmitted obj_bar])))) < 2 ^ 64)
    by (vm_compute; reflexivity).
  split; [exact H |].
  exact (proj1 (C4_CodeIndex_strictly_increasing world0
                  [ObjectEmitted obj_foo; ObjectEmitted obj_bar] H)).
Defined.

(** ** Debug info before code load (claims C5 and C2) *)

Lemma record_size_pos r : 0 < record_size r.
Proof. pose proof (record_size_min r). unfold Prefix.sizeof in *. lia. Qed.

(** The symbols of an object add records to those of the listener, and
    the bytes of these records to its stream. *)
Lemma symbols_emit w Obj Syms L :
  exists rs,
    Emitted (fold_left (notify_symbol w Obj) Syms L) = Emitted L ++ rs
    /\ written (Dumpstream (fold_left (notify_symbol w Obj) Syms L))
       = written (Dumpstream L) ++ flat_map record_bytes rs.
Proof.
  apply (symbols_preserve w
           (fun L' => exists rs,
                Emitted L' = Emitted L ++ rs
                /\ written (Dumpstream L')
                   = written (Dumpstream L) ++ flat_map record_bytes rs)).
  - intros L1 CodeAddr Lines (rs & He & Hw).
    destruct Lines as [| It Lines]; [now exists rs |].
    destruct (NotifyDebug_emits w L1 (uint64 CodeAddr) (It :: Lines))
      as (He' & Hw' & _); [discriminate |].
    eexists. rewrite He', Hw', He, Hw, <- !app_assoc. split; [reflexivity |].
    rewrite flat_map_app. cbn [flat_map]. now rewrite app_nil_r.
  - intros L1 Symbol CodeAddr CodeSize (rs & He & Hw).
    destruct (Z.eq_dec (uint64 CodeSize) 0) as [E | Hs]; [rewrite E; now exists rs |].
    destruct (NotifyCode_emits w L1 Symbol (uint64 CodeAddr) (uint64 CodeSize) Hs)
      as (He' & Hw' & _).
    eexists. rewrite He', Hw', He, Hw, <- !app_assoc. split; [reflexivity |].
    rewrite flat_map_app. cbn [flat_map]. now rewrite app_nil_r.
  - exists []. cbn [flat_map]. now rewrite !app_nil_r.
Qed.

(** One turn of the loop of [NotifyObjectEmitted], for a function with
    code: the debug-info record if there is a line table, then the
    code-load record. *)
Lemma function_records w Obj L Sym Size Name Addr :
  getType Sym = Some ST_Function ->
  getName Sym = Some Name ->
  getAddress Sym = Some Addr ->
  uint64 Size <> 0 ->
  let CodeAddr := uint64 Addr in
  let CodeSize := uint64 Size in
  let Lines := getLineInfoForAddressRange Obj CodeAddr CodeSize in
  let L' := notify_symbol w Obj L (Sym, Size) in
  let dbg := debug_info_record w L CodeAddr Lines in
  let code := code_load_record w (NotifyDebug w L CodeAddr Lines) Name CodeAddr CodeSize in
  let range := match Lines with [] => [code] | _ :: _ => [dbg; code] end in
  Emitted L' = Emitted L ++ range
  /\ written (Dumpstream L') = written (Dumpstream L) ++ flat_map record_bytes range.
Proof.
  intros Hty Hname Haddr Hsize. cbv zeta.
  unfold notify_symbol. cbn [fst snd]. rewrite Hty, Hname, Haddr. cbn [is_function negb].
  set (CodeAddr := uint64 Addr). set (CodeSize := uint64 Size).
  set (Lines := getLineInfoForAddressRange Obj CodeAddr CodeSize).
  destruct (NotifyCode_emits w (NotifyDebug w L CodeAddr Lines) Name CodeAddr CodeSize Hsize)
    as (He & Hw & _).
  rewrite He, Hw. clear He Hw.
  destruct Lines as [| It Lines0] eqn:E.
  - rewrite NotifyDebug_nil. cbn [flat_map]. now rewrite app_nil_r.
  - rewrite <- E.
    destruct (NotifyDebug_emits w L CodeAddr Lines) as (He' & Hw' & _);
      [subst Lines; rewrite E; discriminate |].
    rewrite He', Hw', <- !app_assoc. cbn [flat_map]. now rewrite app_nil_r.
Qed.

(** C5: in a session whose listener is Active, the event
    [NotifyObjectEmitted(Obj)] writes for every function with code
    ([CodeSize > 0]) among the symbols of [Obj], between the records of
    the symbols before it and those of the symbols after it: when the
    line table of the range is not empty, exactly one debug-info record
    for the address and then the code-load record for the same address,
    the debug-info record strictly earlier in the stream; when the line
    table is empty, the code-load record only. *)
Theorem C5_debug_info_precedes_code_load
        (w : World) (events : list Event) (Obj : ObjectFile)
        (before after : list (SymbolRef * Z))
        (Sym : SymbolRef) (Size : Z) (Name : string) (Addr : Z) :
  SuccessfullyInitialized (new_PerfJITEventListener w) = true ->
  computeSymbolSizes Obj = before ++ (Sym, Size) :: after ->
  getType Sym = Some ST_Function ->
  getName Sym = Some Name ->
  getAddress Sym = Some Addr ->
  uint64 Size <> 0 ->
  let CodeAddr := uint64 Addr in
  let CodeSize := uint64 Size in
  let Lines := getLineInfoForAddressRange Obj CodeAddr CodeSize in
  let L := session w events in
  let L' := session w (events ++ [ObjectEmitted Obj]) in
  let L1 := fold_left (notify_symbol w Obj) before L in
  let L2 := notify_symbol w Obj L1 (Sym, Size) in
  let dbg := debug_info_record w L1 CodeAddr Lines in
  let code := code_load_record w (NotifyDebug w L1 CodeAddr Lines) Name CodeAddr CodeSize in
  let range := match Lines with [] => [code] | _ :: _ => [dbg; code] end in
  L' = NotifyObjectEmitted w L Obj
  /\ is_debug_info dbg = true /\ record_CodeAddr dbg = CodeAddr
  /\ is_code_load code = true /\ record_CodeAddr code = CodeAddr
  /\ 0 < record_size dbg
  /\ exists rs_before rs_after,
       Emitted L1 = Emitted L ++ rs_before
       /\ Emitted L2 = Emitted L1 ++ range
       /\ Emitted (fold_left (notify_symbol w Obj) after L2) = Emitted L2 ++ rs_after
       /\ Emitted L' = Emitted L ++ rs_before ++ range ++ rs_after
       /\ written (Dumpstream L')
          = written (Dumpstream L)
            ++ flat_map record_bytes rs_before
            ++ flat_map record_bytes range
            ++ flat_map record_bytes rs_after.
Proof.
  intros Hini Hsyms Hty Hname Haddr Hsize. cbv zeta.
  set (L := session w events).
  assert (HL : SuccessfullyInitialized L = true)
    by exact (eq_trans (Initialized_events w events _) Hini).
  assert (HL' : session w (events ++ [ObjectEmitted Obj]) = NotifyObjectEmitted w L Obj)
    by (unfold session; now rewrite fold_left_app).
  rewrite HL'. split; [reflexivity |].
  do 4 (split; [reflexivity |]). split; [apply record_size_pos |].
  unfold NotifyObjectEmitted. rewrite HL. cbn [negb].
  rewrite Hsyms, fold_left_app. cbn [fold_left].
  set (L1 := fold_left (notify_symbol w Obj) before L).
  set (L2 := notify_symbol w Obj L1 (Sym, Size)).
  destruct (symbols_emit w Obj before L) as (rs_before & Hb & Hbw). fold L1 in Hb, Hbw.
  destruct (symbols_emit w Obj after L2) as (rs_after & Ha & Haw).
  destruct (function_records w Obj L1 Sym Size Name Addr Hty Hname Haddr Hsize)
    as (Hr & Hrw).
  cbv zeta in Hr, Hrw. fold L2 in Hr, Hrw.
  exists rs_before, rs_after.
  match goal with |- context [Dumpstream_flush ?X] =>
    destruct (Dumpstream_flush_members X) as (-> & -> & _)
  end.
  split; [exact Hb | split; [exact Hr | split; [exact Ha |]]].
  rewrite Ha, Haw, Hr, Hrw, Hb, Hbw, <- !app_assoc. split; reflexivity.
Qed.

(** C5 at the session that emits [obj_foo] in [world0]: the debug-info
    record of ["foo"] and then its code-load record. *)
Lemma C5_witness :
  exists dbg code,
    Emitted (session world0 [ObjectEmitted obj_foo]) = [dbg; code]
    /\ written (Dumpstream (session world0 [ObjectEmitted obj_foo]))
       = written (Dumpstream (session world0 []))
         ++ record_bytes dbg ++ record_bytes code
    /\ record_info dbg = LineTableInfo 0x1000 [(0x1040, 10, 0, "a.c"%string)]
    /\ record_info code = CodeInfo 0x1000 64 "foo".
Proof.
  destruct (C5_debug_info_precedes_code_load
              world0 [] obj_foo [] [] (function_symbol "foo" 0x1000) 64 "foo" 0x1000)
    as (_ & _ & _ & _ & _ & _ & rs_before & rs_after & Hb & _ & Ha & He & Hw);
    try reflexivity.
  - vm_compute. discriminate.
  - cbn [fold_left] in Hb, Ha.
    rewrite <- (app_nil_r (Emitted (session world0 []))) in Hb at 1.
    apply app_inv_head in Hb. subst rs_before.
    rewrite <- (app_nil_r (Emitted (notify_symbol _ _ _ _))) in Ha at 1.
    apply app_inv_head in Ha. subst rs_after.
    cbn [app flat_map] in He, Hw. rewrite !app_nil_r in He, Hw.
    eexists. eexists. split; [exact He |]. split; [exact Hw |].
    split; vm_compute; reflexivity.
Defined.

(** C2 does not hold of the code: in an Active session, the function
    ["foo"] with [CodeSize = 0] and the line table [[(0x1000, "a.c", 10, 0)]]
    gets a debug-info record of 52 bytes (and no code-load record). *)
Theorem C2_debug_info_written_for_empty_range :
  let L0 := new_PerfJITEventListener world0 in
  let L := session world0 [ObjectEmitted obj_empty_foo] in
  SuccessfullyInitialized L0 = true
  /\ computeSymbolSizes obj_empty_foo = [(function_symbol "foo" 0x1000, 0)]
  /\ map record_info (Emitted L) = [LineTableInfo 0x1000 [(0x1040, 10, 0, "a.c"%string)]]
  /\ List.length (written (Dumpstream L)) = (List.length (written (Dumpstream L0)) + 52)%nat
  /\ written (Dumpstream L) <> written (Dumpstream L0).
Proof.
  cbv zeta. repeat split; try (vm_compute; reflexivity).
  vm_compute. discriminate.
Qed.

(** ** The entries of a debug-info record (claim C8) *)

Lemma entry_bytes_line_bytes It :
  entry_bytes (make_LineInfo It, FileName (snd It)) = line_bytes It.
Proof.
  unfold entry_bytes, line_bytes, make_LineInfo, DebugEntry.bytes, c_str.
  cbn [fst snd DebugEntry.Addr DebugEntry.Lineno DebugEntry.Discrim].
  now rewrite le_bytes_uint64, !le_bytes_int32, <- !app_assoc.
Qed.

Lemma c_str_sentinel s :
  c_str s = same_file_sentinel <-> s = string_of_list_byte [xff].
Proof.
  unfold c_str, same_file_sentinel. split.
  - intros H. change [xff; x00] with ([xff] ++ [x00]) in H.
    apply app_inj_tail in H. destruct H as [H _].
    now rewrite <- H, string_of_list_byte_of_string.
  - intros ->. now rewrite list_byte_of_string_of_list_byte.
Qed.

(** C8, as amended: a call of [NotifyDebug] with a line table writes the
    struct of the record and then, for every entry of the table and in the order of the
    table, the eight bytes of the address plus 0x40, the four bytes of the
    line, the four bytes of the discriminator and the full file name with
    its NUL.  The struct of an entry holds the address plus 0x40 as a
    [uint64_t], and line and discriminator as [int], which are these
    values themselves for an address below 2^64 - 0x40 and a line or
    discriminator below 2^31.  The path written for an entry never depends
    on the entry before it; it is the two bytes of the same-as-previous
    sentinel only for a file whose name is itself the single byte 0xff. *)
Theorem C8_debug_entries_as_written
        (w : World) (L : PerfJITEventListener) (CodeAddr : Z) (Lines : DILineInfoTable) :
  Lines <> [] ->
  let L' := NotifyDebug w L CodeAddr Lines in
  exists rec,
    Emitted L'
    = Emitted L
      ++ [DebugInfoRecord rec
            (map (fun It => (DebugEntry.mk (uint64 (fst It + 0x40))
                                           (int32 (Line (snd It)))
                                           (int32 (Discriminator (snd It))),
                             FileName (snd It))) Lines)]
    /\ DebugInfo.NrEntry rec = Z.of_nat (List.length Lines)
    /\ written (Dumpstream L')
       = written (Dumpstream L) ++ DebugInfo.bytes rec ++ flat_map line_bytes Lines
    /\ forall It, In It Lines ->
         (0 <= fst It -> fst It + 0x40 < 2 ^ 64 ->
          uint64 (fst It + 0x40) = fst It + 0x40)
         /\ (0 <= Line (snd It) < 2 ^ 31 -> int32 (Line (snd It)) = Line (snd It))
         /\ (0 <= Discriminator (snd It) < 2 ^ 31 ->
             int32 (Discriminator (snd It)) = Discriminator (snd It))
         /\ (c_str (FileName (snd It)) = same_file_sentinel
             <-> FileName (snd It) = string_of_list_byte [xff]).
Proof.
  intros Hl. cbv zeta.
  destruct (NotifyDebug_emits w L CodeAddr Lines Hl) as (He & Hw & _).
  unfold debug_info_record in He, Hw. cbn [record_bytes] in Hw.
  eexists. split; [exact He |]. split; [reflexivity |]. split.
  - rewrite Hw. do 2 f_equal. rewrite flat_map_map.
    apply flat_map_ext. intros It. apply entry_bytes_line_bytes.
  - intros It _. repeat split.
    + intros. apply uint64_small. lia.
    + apply int32_small.
    + apply int32_small.
    + apply c_str_sentinel.
    + apply c_str_sentinel.
Qed.

(** C8 at the call [NotifyDebug(0x1000, [(0x1000, "a.c", 10, 0)])] in the
    state the constructor leaves in [world0]: the entry carries the
    address [0x1040], line 10 and discriminator 0. *)
Lemma C8_witness :
  [line_a_c_10] <> []
  /\ exists rec,
       Emitted (NotifyDebug world0 (new_PerfJITEventListener world0) 0x1000 [line_a_c_10])
       = Emitted (new_PerfJITEventListener world0)
         ++ [DebugInfoRecord rec [(DebugEntry.mk 0x1040 10 0, "a.c"%string)]].
Proof.
  assert (H : [line_a_c_10] <> []) by discriminate.
  split; [exact H |].
  destruct (C8_debug_entries_as_written
              world0 (new_PerfJITEventListener world0) 0x1000 [line_a_c_10] H)
    as (rec & He & _).
  exists rec. exact He.
Defined.

(** C8 fails as stated: the two bytes of the same-as-previous sentinel can
    be emitted.  In the session that emits [obj_ff] in [world0], the
    second entry of the line table of ["foo"] is line 11 of the file
    whose name is the byte [0xff]; the 18 bytes written for it, at offset
    92 of the stream (after the header of 40 bytes, the struct of the
    record of 32 bytes and the first entry of 20 bytes), are the address
    [0x1050], the line 11, the discriminator 0 and, as the path, the two
    bytes [0xff 0x00]. *)
Lemma C8_counterexample :
  map record_info (Emitted (session world0 [ObjectEmitted obj_ff]))
  = [LineTableInfo 0x1000 [(0x1040, 10, 0, "a.c"%string);
                           (0x1050, 11, 0, string_of_list_byte [xff])];
     CodeInfo 0x1000 64 "foo"]
  /\ firstn 18 (skipn 92 (written (Dumpstream (session world0 [ObjectEmitted obj_ff]))))
     = le_bytes 8 0x1050 ++ le_bytes 4 11 ++ le_bytes 4 0 ++ same_file_sentinel
  /\ firstn 2 (skipn 108 (written (Dumpstream (session world0 [ObjectEmitted obj_ff]))))
     = same_file_sentinel.
Proof. repeat split; vm_compute; reflexivity. Qed.

(** ** A failing clock during an event (claim C10) *)

(** C10: when [clock_gettime] fails at a call of [NotifyCode] or
    [NotifyDebug], [perf_get_timestamp] returns 0 and the record is written
    all the same, with timestamp 0, and the listener stays as initialised as
    it was.  So the timestamps of the records of an Active session need
    not be nonzero nor increasing: in [world_clock_breaks] they are
    1000000002, 0, 0. *)
Theorem C10_clock_failure_writes_timestamp_0
        (w : World) (L : PerfJITEventListener)
        (Symbol : string) (CodeAddr CodeSize : Z) (Lines : DILineInfoTable) :
  clock_gettime w (ClockCalls L) = None ->
  fst (perf_get_timestamp w L) = 0
  /\ (CodeSize <> 0 ->
      let L' := NotifyCode w L Symbol CodeAddr CodeSize in
      exists r,
        Emitted L' = Emitted L ++ [r]
        /\ written (Dumpstream L') = written (Dumpstream L) ++ record_bytes r
        /\ is_code_load r = true
        /\ Prefix.Timestamp (record_prefix r) = 0
        /\ SuccessfullyInitialized L' = SuccessfullyInitialized L)
  /\ (Lines <> [] ->
      let L' := NotifyDebug w L CodeAddr Lines in
      exists r,
        Emitted L' = Emitted L ++ [r]
        /\ written (Dumpstream L') = written (Dumpstream L) ++ record_bytes r
        /\ is_debug_info r = true
        /\ Prefix.Timestamp (record_prefix r) = 0
        /\ SuccessfullyInitialized L' = SuccessfullyInitialized L)
  /\ (let Active := session world_clock_breaks
                            [ObjectEmitted obj_foo; ObjectEmitted obj_bar] in
      SuccessfullyInitialized Active = true
      /\ timestamps (Emitted Active) = [1000000002; 0; 0]).
Proof.
  intros Hc. pose proof (perf_get_timestamp_fails w L Hc) as Ht.
  split; [exact Ht |]. split; [| split].
  - intros Hs. cbv zeta.
    destruct (NotifyCode_emits w L Symbol CodeAddr CodeSize Hs) as (He & Hw & _ & Hi & _).
    eexists. split; [exact He |]. split; [exact Hw |].
    split; [reflexivity |]. split; [exact Ht | exact Hi].
  - intros Hl. cbv zeta.
    destruct (NotifyDebug_emits w L CodeAddr Lines Hl) as (He & Hw & _ & Hi & _).
    eexists. split; [exact He |]. split; [exact Hw |].
    split; [reflexivity |]. split; [exact Ht | exact Hi].
  - cbv zeta. split; vm_compute; reflexivity.
Qed.

(** C10 at the second event of the session in [world_clock_breaks],
    where the clock has failed since its fourth call: ["bar"] is written
    with timestamp 0. *)
Lemma C10_witness :
  let L := session world_clock_breaks [ObjectEmitted obj_foo] in
  clock_gettime world_clock_breaks (ClockCalls L) = None
  /\ exists r,
       Emitted (NotifyCode world_clock_breaks L "bar" 0x2000 32) = Emitted L ++ [r]
       /\ Prefix.Timestamp (record_prefix r) = 0.
Proof.
  cbv zeta.
  assert (H : clock_gettime world_clock_breaks
                (ClockCalls (session world_clock_breaks [ObjectEmitted obj_foo])) = None)
    by (vm_compute; reflexivity).
  split; [exact H |].
  destruct (C10_clock_failure_writes_timestamp_0
              world_clock_breaks (session world_clock_breaks [ObjectEmitted obj_foo])
              "bar" 0x2000 32 [] H) as (_ & Hcode & _).
  destruct Hcode as (r & He & _ & _ & Ht & _); [discriminate |].
  exists r. split; [exact He | exact Ht].
Defined.

(** ** The steps of the constructor (claims C6, C7 and C3) *)

(** C6, as amended: the constructor never writes before it has mapped the
    marker, and a successful initialisation is, in this order: the probe
    of the clock, the creation of the debug directory and of the unique
    session directory, the opening of the log file, the reading of the
    process's own image, the mapping of the marker over the descriptor of
    the log file, a second reading of the clock, and only then the write
    of the header, which is all the stream holds at that point. *)
Theorem C6_marker_is_mapped_before_the_header_is_written (w : World) :
  let L := new_PerfJITEventListener w in
  header_after_marker (Effects L) = true
  /\ (SuccessfullyInitialized L = true ->
      exists dir prefix hdr,
        Effects L
        = [E_clock_gettime; E_create_directories dir;
           E_createUniqueDirectory prefix; E_openFileForWrite (dump_Filename L);
           E_read_self_exe; E_mmap (DumpFd L); E_clock_gettime;
           E_write (Header.bytes hdr)]
        /\ written (Dumpstream L) = Header.bytes hdr
        /\ MarkerAddr L = mmap w (DumpFd L)
        /\ MarkerAddr L <> MAP_FAILED).
Proof.
  cbv zeta. split.
  - constructor_cases; reflexivity.
  - constructor_cases; try discriminate; intros _;
      do 3 eexists; (split; [reflexivity |]); (split; [reflexivity |]);
      (split; [reflexivity |]);
      match goal with H : (_ =? MAP_FAILED) = false |- _ =>
        apply Z.eqb_neq in H; exact H
      end.
Qed.

(** C6 fails as stated: in [world0] the initialisation succeeds, and the
    marker is mapped (sixth step) before anything is written; the header
    is written last. *)
Lemma C6_counterexample :
  SuccessfullyInitialized (new_PerfJITEventListener world0) = true
  /\ marker_after_header (Effects (new_PerfJITEventListener world0)) = false
  /\ Effects (new_PerfJITEventListener world0)
     = [E_clock_gettime;
        E_create_directories "/home/u/.debug/jit/";
        E_createUniqueDirectory "/home/u/.debug/jit/llvm-IR-jit-20181030";
        E_openFileForWrite "/home/u/.debug/jit/llvm-IR-jit-20181030-a1b2c3jit-4242.dump";
        E_read_self_exe;
        E_mmap 3;
        E_clock_gettime;
        E_write (written (Dumpstream (new_PerfJITEventListener world0)))].
Proof. repeat split; vm_compute; reflexivity. Qed.

(** C6, as amended, at [world0]: the initialisation succeeds there, and
    its steps are the eight of the theorem. *)
Lemma C6_witness :
  SuccessfullyInitialized (new_PerfJITEventListener world0) = true
  /\ exists dir prefix hdr,
       Effects (new_PerfJITEventListener world0)
       = [E_clock_gettime; E_create_directories dir;
          E_createUniqueDirectory prefix;
          E_openFileForWrite (dump_Filename (new_PerfJITEventListener world0));
          E_read_self_exe; E_mmap (DumpFd (new_PerfJITEventListener world0));
          E_clock_gettime; E_write (Header.bytes hdr)].
Proof.
  assert (H : SuccessfullyInitialized (new_PerfJITEventListener world0) = true)
    by (vm_compute; reflexivity).
  split; [exact H |].
  destruct (proj2 (C6_marker_is_mapped_before_the_header_is_written world0) H)
    as (dir & prefix & hdr & He & _).
  exists dir, prefix, hdr. exact He.
Defined.

Lemma failed_initialization_is_Inert w :
  initialization_fails w ->
  SuccessfullyInitialized (new_PerfJITEventListener w) = false.
Proof.
  unfold initialization_fails. constructor_cases; try (intros _; reflexivity).
  all: repeat match goal with
              | H : (_ =? _) = false |- _ => apply Z.eqb_neq in H
              end.
  all: intros [Hclock | (e & Hin & Hfail)]; [contradiction |].
  all: cbn [app In] in Hin.
  all: repeat match goal with H : _ \/ _ |- _ => destruct H as [<- | H] end;
    cbn [step_fails] in Hfail; try contradiction;
    unfold createUniqueDirectory in Hfail;
    try match goal with H : unique_suffix _ _ = Some _ |- _ => rewrite H in Hfail end;
    congruence.
Qed.

(** C7: when the initialisation fails (no monotonic clock, or a failing
    step: creation of a directory, opening of the log file, reading or
    validation of the process's image, mapping of the marker, an error of
    the stream at the write of the header), the listener is constructed
    Inert and every event leaves it as it is: nothing more is written,
    nothing more is done, and it never becomes Active. *)
Theorem C7_failed_initialization_is_permanent (w : World) (events : list Event) :
  initialization_fails w ->
  let L0 := new_PerfJITEventListener w in
  SuccessfullyInitialized L0 = false
  /\ session w events = L0
  /\ written (Dumpstream (session w events)) = written (Dumpstream L0)
  /\ Emitted (session w events) = []
  /\ SuccessfullyInitialized (session w events) = false
  /\ (forall L e, SuccessfullyInitialized L = false -> notify w L e = L).
Proof.
  intros Hfail. cbv zeta.
  pose proof (failed_initialization_is_Inert w Hfail) as Hinert.
  assert (Hs : session w events = new_PerfJITEventListener w)
    by (apply Inert_events; exact Hinert).
  rewrite Hs. repeat split; try assumption.
  - apply new_listener_fresh.
  - intros L e. apply Inert_notify.
Qed.

(** C7 in [world_no_directory], where the debug directory cannot be
    created: emitting ["foo"] leaves the listener as constructed. *)
Lemma C7_witness :
  initialization_fails world_no_directory
  /\ session world_no_directory [ObjectEmitted obj_foo]
     = new_PerfJITEventListener world_no_directory.
Proof.
  assert (H : initialization_fails world_no_directory).
  { right. exists (E_create_directories "/home/u/.debug/jit/").
    split; [vm_compute; tauto | reflexivity]. }
  split; [exact H |].
  exact (proj1 (proj2 (C7_failed_initialization_is_permanent
                         world_no_directory [ObjectEmitted obj_foo] H))).
Defined.

(** C3 does not hold of the code: in [world0] the unique session
    directory is [.../llvm-IR-jit-20181030-a1b2c3], and the file the
    constructor opens is not [jit-4242.dump] inside it: the name is
    appended to the path of the directory without a separator, which
    makes a file next to the directory. *)
Theorem C3_log_file_is_not_inside_the_session_directory :
  let L := new_PerfJITEventListener world0 in
  JitPath L = "/home/u/.debug/jit/llvm-IR-jit-20181030-a1b2c3"%string
  /\ dump_Filename L
     = "/home/u/.debug/jit/llvm-IR-jit-20181030-a1b2c3jit-4242.dump"%string
  /\ In (E_openFileForWrite (dump_Filename L)) (Effects L)
  /\ dump_Filename L <> (JitPath L ++ "/jit-4242.dump")%string.
Proof.
  cbv zeta. split; [vm_compute; reflexivity |].
  split; [vm_compute; reflexivity |].
  split; [vm_compute; tauto |].
  vm_compute. discriminate.
Qed.

(** ** Reading back what was written (claim C9) *)

Lemma take_app a rest : take (List.length a) (a ++ rest) = Some (a, rest).
Proof.
  unfold take. rewrite length_app.
  destruct (Nat.leb_spec (List.length a) (List.length a + List.length rest)); [| lia].
  rewrite firstn_app, Nat.sub_diag, firstn_all, skipn_app, Nat.sub_diag, skipn_all.
  cbn [firstn skipn app]. now rewrite app_nil_r.
Qed.

Lemma get_uint_le n v rest :
  get_uint n (le_bytes n v ++ rest) = Some (v mod 2 ^ (8 * Z.of_nat n), rest).
Proof.
  unfold get_uint.
  rewrite <- (length_le_bytes n v) at 1. rewrite take_app.
  now rewrite le_value_le_bytes.
Qed.

Lemma get_uint32 v rest :
  0 <= v < 2 ^ 32 -> get_uint 4 (le_bytes 4 v ++ rest) = Some (v, rest).
Proof. intros H. rewrite get_uint_le. now rewrite Z.mod_small. Qed.

Lemma get_uint64 v rest :
  0 <= v < 2 ^ 64 -> get_uint 8 (le_bytes 8 v ++ rest) = Some (v, rest).
Proof. intros H. rewrite get_uint_le. now rewrite Z.mod_small. Qed.

Lemma get_int32_le v rest :
  - 2 ^ 31 <= v < 2 ^ 31 -> get_int32 (le_bytes 4 v ++ rest) = Some (v, rest).
Proof.
  intros H. unfold get_int32. rewrite get_uint_le.
  change (v mod 2 ^ (8 * Z.of_nat 4)) with (uint32 v).
  now rewrite int32_uint32.
Qed.

Lemma get_c_str_app l rest :
  forallb (fun b => negb (Byte.eqb b x00)) l = true ->
  get_c_str ((l ++ [x00]) ++ rest) = Some (l, rest).
Proof.
  induction l as [| b l IH]; intros H.
  - reflexivity.
  - cbn [forallb] in H. apply andb_prop in H. destruct H as [Hb Hl].
    cbn [app get_c_str]. apply negb_true_iff in Hb. rewrite Hb.
    now rewrite (IH Hl).
Qed.

Lemma get_string_c_str s rest :
  no_NUL s = true -> get_string (c_str s ++ rest) = Some (s, rest).
Proof.
  intros H. unfold get_string, c_str. rewrite (get_c_str_app _ _ H).
  now rewrite string_of_list_byte_of_string.
Qed.

Lemma decode_entry_bytes prev e rest :
  0 <= DebugEntry.Addr (fst e) < 2 ^ 64 ->
  - 2 ^ 31 <= DebugEntry.Lineno (fst e) < 2 ^ 31 ->
  - 2 ^ 31 <= DebugEntry.Discrim (fst e) < 2 ^ 31 ->
  no_NUL (snd e) = true ->
  decode_entry prev (entry_bytes e ++ rest)
  = Some ((fst e, entry_file prev (snd e)), rest).
Proof.
  intros Ha Hl Hd Hn. destruct e as [[addr line discrim] file].
  cbn [fst snd DebugEntry.Addr DebugEntry.Lineno DebugEntry.Discrim] in *.
  unfold decode_entry, entry_bytes, DebugEntry.bytes.
  cbn [fst snd DebugEntry.Addr DebugEntry.Lineno DebugEntry.Discrim].
  rewrite <- !app_assoc.
  rewrite (get_uint64 _ _ Ha), (get_int32_le _ _ Hl), (get_int32_le _ _ Hd).
  now rewrite (get_string_c_str _ _ Hn).
Qed.

Lemma entry_file_own prev name :
  name <> same_as_previous -> entry_file prev name = name.
Proof.
  intros H. destruct prev as [file |]; [| reflexivity].
  cbn [entry_file]. now destruct (String.eqb_spec name same_as_previous).
Qed.

Lemma le_bytes_cons n v rest : exists b bs, le_bytes (S n) v ++ rest = b :: bs.
Proof. cbn [le_bytes app]. eauto. Qed.

(** Entries read back as they are when none of them, the first of a
    record apart, has the file name that stands for the file of the entry
    before it. *)
Lemma decode_entries_bytes entries : forall fuel prev,
  Forall entry_ok entries ->
  Forall (fun e => snd e <> same_as_previous)
         (match prev with Some _ => entries | None => tl entries end) ->
  (List.length entries <= fuel)%nat ->
  decode_entries fuel prev (flat_map entry_bytes entries) = Some entries.
Proof.
  induction entries as [| e entries IH]; intros fuel prev Hok Hown Hfuel.
  - destruct fuel; reflexivity.
  - inversion Hok as [| e' es' ((Ha & Hl & Hd) & Hn) Hrest]; subst.
    cbn [flat_map].
    destruct fuel as [| fuel]; [cbn [List.length] in Hfuel; lia |].
    assert (Hcons : exists b bs, entry_bytes e ++ flat_map entry_bytes entries = b :: bs).
    { unfold entry_bytes, DebugEntry.bytes. rewrite <- !app_assoc. apply le_bytes_cons. }
    destruct Hcons as (b & bs & Hcons).
    cbn [decode_entries]. rewrite Hcons. rewrite <- Hcons.
    rewrite (decode_entry_bytes prev e _ Ha Hl Hd Hn). cbn [snd].
    assert (Hfile : entry_file prev (snd e) = snd e
                    /\ Forall (fun e => snd e <> same_as_previous) entries).
    { destruct prev as [file |].
      - inversion Hown; subst. split; [now apply entry_file_own | assumption].
      - split; [reflexivity | exact Hown]. }
    destruct Hfile as (-> & Hown').
    rewrite (IH fuel (Some (snd e)));
      [now destruct e | assumption | assumption | cbn [List.length] in Hfuel; lia].
Qed.

Lemma length_flat_map_entries entries :
  (List.length entries <= List.length (flat_map entry_bytes entries))%nat.
Proof.
  induction entries as [| e entries IH]; cbn [flat_map List.length]; [lia |].
  rewrite length_app. unfold entry_bytes at 1.
  rewrite length_app, length_DebugEntry_bytes. lia.
Qed.

Lemma record_bytes_split r :
  record_bytes r = Prefix.bytes (record_prefix r) ++ record_body r.
Proof.
  destruct r as [rec name code | rec entries];
    cbn [record_bytes record_prefix record_body];
    [unfold CodeLoad.bytes | unfold DebugInfo.bytes];
    now rewrite <- !app_assoc.
Qed.

Lemma length_record_body r :
  Z.of_nat (List.length (record_body r)) = record_size r - Prefix.sizeof.
Proof.
  unfold record_size. rewrite record_bytes_split, length_app, length_Prefix_bytes.
  unfold Prefix.sizeof. lia.
Qed.

Lemma decode_code_load_body p rec name code :
  CodeLoad.Prefix rec = p ->
  record_ok (CodeLoadRecord rec name code) ->
  no_NUL name = true ->
  decode_code_load p (record_body (CodeLoadRecord rec name code))
  = Some (CodeLoadRecord rec name code).
Proof.
  intros Hp (_ & _ & _ & Hpid & Htid & Hvma & Haddr & Hsize & Hidx & Hcode) Hn.
  destruct rec as [p' pid tid vma addr size index].
  cbn [CodeLoad.Prefix CodeLoad.Pid CodeLoad.Tid CodeLoad.Vma CodeLoad.CodeAddr
       CodeLoad.CodeSize CodeLoad.CodeIndex record_body] in *.
  subst p'. unfold decode_code_load.
  rewrite (get_uint32 _ _ Hpid), (get_uint32 _ _ Htid).
  rewrite (get_uint64 vma) by lia.
  rewrite (get_uint64 _ _ Haddr).
  rewrite (get_uint64 size) by lia.
  rewrite (get_uint64 _ _ Hidx).
  rewrite (get_string_c_str _ _ Hn), Hcode, Z.eqb_refl. reflexivity.
Qed.

Lemma decode_debug_info_body p rec entries :
  DebugInfo.Prefix rec = p ->
  record_ok (DebugInfoRecord rec entries) ->
  record_fits (DebugInfoRecord rec entries) ->
  decode_debug_info p (record_body (DebugInfoRecord rec entries))
  = Some (DebugInfoRecord rec entries).
Proof.
  intros Hp (_ & _ & _ & Haddr & Hnr & _ & Hentries) (Hsize & Hnames & Hown).
  destruct rec as [p' addr nr].
  cbn [DebugInfo.Prefix DebugInfo.CodeAddr DebugInfo.NrEntry record_body] in *.
  subst p' nr. unfold decode_debug_info.
  rewrite (get_uint64 _ _ Haddr).
  pose proof (length_flat_map_entries entries) as Hlen.
  rewrite get_uint64.
  - rewrite decode_entries_bytes; [now rewrite Z.eqb_refl | | exact Hown | exact Hlen].
    rewrite Forall_forall in *. intros e He. split; auto.
  - rewrite record_size_DebugInfo, <- entries_size_length in Hsize.
    unfold DebugInfo.sizeof in Hsize. lia.
Qed.

(** A well-formed record that fits the format reads back as it is, with
    the stream positioned after it. *)
Lemma decode_record_bytes r rest :
  record_ok r -> record_fits r ->
  decode_record (record_bytes r ++ rest) = Some (Some r, rest).
Proof.
  intros Hok Hfits.
  pose proof Hok as (Htotal & Hts & Hkind).
  pose proof Hfits as (Hsize & Hnames).
  pose proof (record_size_min r) as Hmin.
  rewrite record_bytes_split. unfold Prefix.bytes. rewrite <- !app_assoc.
  assert (Hid : Prefix.Id (record_prefix r) = JIT_CODE_LOAD
                \/ Prefix.Id (record_prefix r) = JIT_CODE_DEBUG_INFO).
  { destruct r; [left | right]; apply Hkind. }
  assert (Ht : Prefix.TotalSize (record_prefix r) = record_size r).
  { rewrite Htotal. apply uint32_small. unfold Prefix.sizeof in Hmin. lia. }
  unfold decode_record.
  rewrite get_uint32 by (destruct Hid as [-> | ->]; cbv; intuition discriminate).
  rewrite get_uint32 by (rewrite Ht; unfold Prefix.sizeof in Hmin; lia).
  rewrite (get_uint64 _ _ Hts).
  destruct (Z.ltb_spec (Prefix.TotalSize (record_prefix r)) Prefix.sizeof) as [Hlt | _];
    [lia |].
  replace (Z.to_nat (Prefix.TotalSize (record_prefix r) - Prefix.sizeof))
    with (List.length (record_body r))
    by (rewrite Ht, <- length_record_body; lia).
  rewrite take_app.
  assert (Hp : Prefix.mk (Prefix.Id (record_prefix r))
                         (Prefix.TotalSize (record_prefix r))
                         (Prefix.Timestamp (record_prefix r)) = record_prefix r)
    by (destruct (record_prefix r); reflexivity).
  rewrite Hp.
  destruct r as [rec name code | rec entries]; cbn [record_prefix] in *.
  - destruct Hkind as (Hk & _). rewrite Hk.
    change (JIT_CODE_LOAD =? JIT_CODE_LOAD) with true. cbv iota.
    now rewrite decode_code_load_body.
  - destruct Hkind as (Hk & _). rewrite Hk.
    change (JIT_CODE_DEBUG_INFO =? JIT_CODE_LOAD) with false.
    change (JIT_CODE_DEBUG_INFO =? JIT_CODE_DEBUG_INFO) with true. cbv iota.
    now rewrite decode_debug_info_body.
Qed.

Lemma record_bytes_cons r rest : exists b bs, record_bytes r ++ rest = b :: bs.
Proof.
  rewrite record_bytes_split. unfold Prefix.bytes. rewrite <- !app_assoc.
  apply le_bytes_cons.
Qed.

Lemma decode_records_bytes rs : forall fuel,
  Forall record_ok rs -> Forall record_fits rs ->
  (List.length rs <= fuel)%nat ->
  decode_records fuel (flat_map record_bytes rs) = Some rs.
Proof.
  induction rs as [| r rs IH]; intros fuel Hok Hfits Hfuel.
  - destruct fuel; reflexivity.
  - inversion Hok; inversion Hfits; subst. cbn [flat_map].
    destruct fuel as [| fuel]; [cbn [List.length] in Hfuel; lia |].
    destruct (record_bytes_cons r (flat_map record_bytes rs)) as (b & bs & Hcons).
    cbn [decode_records]. rewrite Hcons. rewrite <- Hcons.
    rewrite decode_record_bytes by assumption.
    rewrite IH; [reflexivity | assumption | assumption |].
    cbn [List.length] in Hfuel. lia.
Qed.

Lemma length_flat_map_records rs :
  (List.length rs <= List.length (flat_map record_bytes rs))%nat.
Proof.
  induction rs as [| r rs IH]; cbn [flat_map List.length]; [lia |].
  rewrite length_app. pose proof (record_size_pos r). unfold record_size in *. lia.
Qed.

Lemma le_value_range bs : 0 <= le_value bs < 2 ^ (8 * Z.of_nat (List.length bs)).
Proof.
  induction bs as [| b bs IH].
  - cbn. lia.
  - cbn [le_value List.length]. pose proof (Z_of_byte_range b).
    replace (8 * Z.of_nat (S (List.length bs)))
      with (8 + 8 * Z.of_nat (List.length bs)) by lia.
    rewrite Z.pow_add_r by lia. change (2 ^ 8) with 256. nia.
Qed.

Lemma FillMachine_header w hdr h :
  FillMachine w hdr = Some h ->
  0 <= Header.ElfMach h < 2 ^ 32
  /\ Header.Pad1 h = Header.Pad1 hdr /\ Header.Flags h = Header.Flags hdr.
Proof.
  unfold FillMachine. destruct (proc_self_exe w) as [image |]; [| discriminate].
  destruct (negb _); [discriminate |].
  destruct (_ || _); [discriminate |].
  destruct (negb _); [discriminate |].
  intros H. injection H as <-.
  cbn [Header.ElfMach Header.Pad1 Header.Flags].
  split; [| split; reflexivity].
  match goal with |- context [le_value ?x] =>
    change x with (skipn 2 (firstn 4 (skipn 16 image)))
  end.
  set (bs := skipn 2 (firstn 4 (skipn 16 image))).
  pose proof (le_value_range bs) as Hr.
  assert (Hlen : (List.length bs <= 2)%nat).
  { subst bs. rewrite length_skipn, length_firstn. lia. }
  assert (2 ^ (8 * Z.of_nat (List.length bs)) <= 2 ^ 16)
    by (apply Z.pow_le_mono_r; lia).
  lia.
Qed.

Lemma successful_header w :
  SuccessfullyInitialized (new_PerfJITEventListener w) = true ->
  exists h, written (Dumpstream (new_PerfJITEventListener w)) = Header.bytes h
            /\ header_ok w h.
Proof.
  constructor_cases; try discriminate; intros _;
    match goal with H : FillMachine _ _ = Some _ |- _ =>
      apply FillMachine_header in H; destruct H as (Hm & Hp & Hf)
    end;
    (eexists; split; [reflexivity |]); unfold header_ok;
    cbn [Header.Magic Header.Version Header.TotalSize Header.ElfMach Header.Pad1
         Header.Pid Header.Timestamp Header.Flags];
    rewrite Hp, Hf; repeat split; try reflexivity; try apply Hm;
    try apply uint64_range; try lia.
Qed.

Lemma decode_header_bytes w h rest :
  header_ok w h -> decode_header (Header.bytes h ++ rest) = Some (h, rest).
Proof.
  intros (Hmagic & Hver & Htotal & Hmach & Hpad & Hpid & Hts & Hflags).
  destruct h as [magic version total mach pad pid ts flags].
  cbn [Header.Magic Header.Version Header.TotalSize Header.ElfMach Header.Pad1
       Header.Pid Header.Timestamp Header.Flags] in *.
  subst magic version total pad flags.
  unfold decode_header, Header.bytes.
  cbn [Header.Magic Header.Version Header.TotalSize Header.ElfMach Header.Pad1
       Header.Pid Header.Timestamp Header.Flags].
  rewrite <- !app_assoc.
  rewrite (get_uint32 LLVM_PERF_JIT_MAGIC) by (cbv; intuition discriminate).
  rewrite (get_uint32 LLVM_PERF_JIT_VERSION) by (cbv; intuition discriminate).
  rewrite (get_uint32 Header.sizeof) by (cbv; intuition discriminate).
  rewrite (get_uint32 _ _ Hmach).
  rewrite (get_uint32 0) by lia.
  rewrite (get_uint32 pid) by (rewrite Hpid; apply uint32_range).
  rewrite (get_uint64 _ _ Hts).
  rewrite (get_uint64 0) by lia.
  now rewrite !Z.eqb_refl.
Qed.

(** What one symbol adds to the records, whatever the symbol. *)
Lemma function_emits w L Name CodeAddr CodeSize Lines :
  Emitted (NotifyCode w (NotifyDebug w L CodeAddr Lines) Name CodeAddr CodeSize)
  = Emitted L
    ++ match Lines with
       | [] => []
       | _ :: _ => [debug_info_record w L CodeAddr Lines]
       end
    ++ (if CodeSize =? 0 then []
        else [code_load_record w (NotifyDebug w L CodeAddr Lines)
                               Name CodeAddr CodeSize]).
Proof.
  assert (Hd : Emitted (NotifyDebug w L CodeAddr Lines)
               = Emitted L ++ match Lines with
                              | [] => []
                              | _ :: _ => [debug_info_record w L CodeAddr Lines]
                              end).
  { destruct Lines as [| It Lines]; [now rewrite NotifyDebug_nil, app_nil_r |].
    apply (NotifyDebug_emits w L CodeAddr (It :: Lines)). discriminate. }
  destruct (Z.eqb_spec CodeSize 0) as [-> | Hs].
  - now rewrite NotifyCode_zero, app_nil_r.
  - destruct (NotifyCode_emits w (NotifyDebug w L CodeAddr Lines)
                Name CodeAddr CodeSize Hs) as (He & _).
    now rewrite He, Hd, app_assoc.
Qed.

Lemma names_its_file_entries Lines :
  forallb names_its_file (tl Lines) = true ->
  Forall (fun e => snd e <> same_as_previous)
         (tl (map (fun It => (make_LineInfo It, FileName (snd It))) Lines)).
Proof.
  intros H. rewrite forallb_forall in H.
  destruct Lines as [| It0 Lines]; [constructor |]. cbn [tl map] in *.
  apply Forall_forall. intros e He. apply in_map_iff in He.
  destruct He as (It & <- & Hin). specialize (H It Hin).
  unfold names_its_file in H. apply negb_true_iff in H. cbn [snd].
  now destruct (String.eqb_spec (FileName (snd It)) same_as_previous).
Qed.

Lemma line_fits_entries Lines :
  forallb line_fits Lines = true ->
  Forall (fun e => no_NUL (snd e) = true)
         (map (fun It => (make_LineInfo It, FileName (snd It))) Lines)
  /\ map (fun e => (DebugEntry.Addr (fst e), DebugEntry.Lineno (fst e),
                    DebugEntry.Discrim (fst e), snd e))
         (map (fun It => (make_LineInfo It, FileName (snd It))) Lines)
     = map line_info Lines.
Proof.
  intros H. rewrite forallb_forall in H. split.
  - apply Forall_forall. intros e He. apply in_map_iff in He.
    destruct He as (It & <- & Hin). specialize (H It Hin).
    unfold line_fits in H. apply andb_prop in H. apply H.
  - rewrite map_map. apply map_ext_in. intros It Hin. specialize (H It Hin).
    unfold line_fits in H.
    repeat (apply andb_prop in H; destruct H as [H ?]).
    unfold line_info, make_LineInfo.
    cbn [fst snd DebugEntry.Addr DebugEntry.Lineno DebugEntry.Discrim].
    rewrite !int32_small by lia. reflexivity.
Qed.

(** A symbol that fits the format adds records that fit it, and these
    say of the symbol what [symbol_info] says. *)
Lemma notify_symbol_fits w Obj L P :
  symbol_fits Obj P = true ->
  exists rs,
    Emitted (notify_symbol w Obj L P) = Emitted L ++ rs
    /\ Forall record_fits rs
    /\ map record_info rs = symbol_info Obj P.
Proof.
  intros Hfits. unfold notify_symbol, symbol_fits, symbol_info in *.
  destruct (getType (fst P)) as [ty |];
    [| exists []; rewrite app_nil_r; repeat split; constructor].
  destruct ty; cbn [is_function negb];
    try (exists []; rewrite app_nil_r; repeat split; constructor).
  destruct (getName (fst P)) as [Name |];
    [| exists []; rewrite app_nil_r; repeat split; constructor].
  destruct (getAddress (fst P)) as [Addr |];
    [| exists []; rewrite app_nil_r; repeat split; constructor].
  cbv zeta.
  repeat (apply andb_prop in Hfits; destruct Hfits as [Hfits ?]).
  match goal with
  | H : table_fits _ = true |- _ =>
    apply andb_prop in H; destruct H as [Hlines Hnames]
  end.
  rewrite (uint64_small Addr), (uint64_small (snd P)) by lia.
  set (Lines := getLineInfoForAddressRange Obj Addr (snd P)) in *.
  destruct (line_fits_entries Lines Hlines) as (Hnul & Hinfo).
  pose proof (names_its_file_entries Lines Hnames) as Hown.
  rewrite function_emits. eexists. split; [reflexivity |]. split.
  - apply Forall_app. split.
    + destruct Lines as [| It Lines0] eqn:E; constructor; [| constructor].
      rewrite <- E in *. split; [| split; [exact Hnul | exact Hown]].
      unfold debug_info_record. rewrite record_size_DebugInfo, <- debug_info_size_eq.
      lia.
    + destruct (Z.eqb_spec (snd P) 0); constructor; [| constructor].
      split; [| assumption].
      unfold code_load_record.
      rewrite record_size_CodeLoad, length_read_memory by lia.
      unfold code_load_size in *. lia.
  - rewrite map_app. f_equal.
    + destruct Lines as [| It Lines0] eqn:E; [reflexivity |].
      rewrite <- E in *. cbn [map record_info debug_info_record DebugInfo.CodeAddr].
      now rewrite Hinfo.
    + destruct (Z.eqb_spec (snd P) 0); reflexivity.
Qed.

Lemma symbols_fit w Obj Syms : forall L,
  forallb (symbol_fits Obj) Syms = true ->
  exists rs,
    Emitted (fold_left (notify_symbol w Obj) Syms L) = Emitted L ++ rs
    /\ Forall record_fits rs
    /\ map record_info rs = flat_map (symbol_info Obj) Syms.
Proof.
  induction Syms as [| P Syms IH]; intros L Hfits.
  - exists []. rewrite app_nil_r. repeat split. constructor.
  - cbn [forallb] in Hfits. apply andb_prop in Hfits. destruct Hfits as [HP HSyms].
    cbn [fold_left flat_map].
    destruct (notify_symbol_fits w Obj L P HP) as (rs1 & He1 & Hf1 & Hi1).
    destruct (IH (notify_symbol w Obj L P) HSyms) as (rs2 & He2 & Hf2 & Hi2).
    exists (rs1 ++ rs2). rewrite He2, He1, app_assoc, map_app, Hi1, Hi2.
    repeat split. now apply Forall_app.
Qed.

Lemma events_fit w events : forall L,
  SuccessfullyInitialized L = true ->
  forallb event_fits events = true ->
  exists rs,
    Emitted (fold_left (notify w) events L) = Emitted L ++ rs
    /\ Forall record_fits rs
    /\ map record_info rs = flat_map event_info events.
Proof.
  induction events as [| e events IH]; intros L Hini Hfits.
  - exists []. rewrite app_nil_r. repeat split. constructor.
  - cbn [forallb] in Hfits. apply andb_prop in Hfits. destruct Hfits as [He Hevents].
    cbn [fold_left flat_map].
    assert (Hini' : SuccessfullyInitialized (notify w L e) = true).
    { rewrite <- Hini.
      apply (Initialized_events w [e] L). }
    destruct (IH (notify w L e) Hini' Hevents) as (rs2 & He2 & Hf2 & Hi2).
    destruct e as [Obj | Obj]; cbn [notify event_info event_fits] in *.
    + unfold NotifyObjectEmitted in He2 |- *. rewrite Hini in *. cbn [negb] in *.
      destruct (symbols_fit w Obj (computeSymbolSizes Obj) L He)
        as (rs1 & He1 & Hf1 & Hi1).
      destruct (Dumpstream_flush_members
                  (fold_left (notify_symbol w Obj) (computeSymbolSizes Obj) L))
        as (Hflush & _).
      rewrite Hflush, He1 in He2.
      exists (rs1 ++ rs2). rewrite He2, app_assoc, map_app, Hi1, Hi2.
      repeat split. now apply Forall_app.
    + unfold NotifyFreeingObject in *. exists rs2. repeat split; assumption.
Qed.

(** C9, as amended: for a session whose initialisation succeeds and whose
    events fit the format (addresses and sizes in the range of their C
    type, lines and discriminators below 2^31, names without a NUL inside,
    no entry of a line table after the first with the file name [0xff],
    records below 2^32 bytes), reading the stream back gives the header of
    the process and exactly the records that were written; these carry,
    event by event and in order, the address, the size and the name of
    every function with code, and for every non-empty line table the
    address of the function and the (address + 0x40, line, discriminator,
    file) of every entry. *)
Theorem C9_round_trip (w : World) (events : list Event) :
  SuccessfullyInitialized (new_PerfJITEventListener w) = true ->
  forallb event_fits events = true ->
  (exists hdr recs,
     decode_stream (written (Dumpstream (session w events))) = Some (hdr, recs)
     /\ Header.Magic hdr = LLVM_PERF_JIT_MAGIC
     /\ Header.Pid hdr = uint32 (getpid w)
     /\ recs = Emitted (session w events)
     /\ map record_info recs = flat_map event_info events)
  /\ read_back w events = Some (flat_map event_info events).
Proof.
  intros Hini Hfits.
  destruct (successful_header w Hini) as (h & Hh & Hok).
  destruct (events_fit w events (new_PerfJITEventListener w) Hini Hfits)
    as (rs & He & Hrs & Hinfo).
  fold (session w events) in He.
  destruct (new_listener_fresh w) as (Hnil & _). rewrite Hnil in He. cbn [app] in He.
  destruct (records_ok w events) as (Hall & _). cbv zeta in Hall.
  pose proof (stream_of_records w events) as Hstream. cbv zeta in Hstream.
  assert (Hd : decode_stream (written (Dumpstream (session w events)))
               = Some (h, Emitted (session w events))).
  { rewrite Hstream, Hh. unfold decode_stream.
    rewrite (decode_header_bytes w h _ Hok).
    rewrite decode_records_bytes; [reflexivity | exact Hall | | ].
    + rewrite He. exact Hrs.
    + apply length_flat_map_records. }
  split.
  - exists h, (Emitted (session w events)).
    split; [exact Hd | split; [apply Hok | split; [apply Hok | split; [reflexivity |]]]].
    rewrite He. exact Hinfo.
  - unfold read_back. rewrite Hd, He. now rewrite Hinfo.
Qed.

(** C9 at the session of the scenarios: ["foo"] with its line table, then
    ["bar"] without one, then the freeing of an object. *)
Lemma C9_witness :
  read_back world0 [ObjectEmitted obj_foo; ObjectEmitted obj_bar; FreeingObject obj_foo]
  = Some [LineTableInfo 0x1000 [(0x1040, 10, 0, "a.c"%string)];
          CodeInfo 0x1000 64 "foo"; CodeInfo 0x2000 32 "bar"].
Proof.
  destruct (C9_round_trip world0 [ObjectEmitted obj_foo; ObjectEmitted obj_bar;
                                  FreeingObject obj_foo])
    as (_ & Hread).
  - vm_compute. reflexivity.
  - vm_compute. reflexivity.
  - rewrite Hread. vm_compute. reflexivity.
Defined.

(** The stream of the session that emits the function ["f"] of 2^32 bytes
    cannot be read back: the size field of the code-load record says 58
    bytes, which leaves no room for the code the record announces. *)
Lemma huge_function_is_not_read_back :
  decode_stream (written (Dumpstream (session world0 [ObjectEmitted obj_huge])))
  = None.
Proof.
  assert (Hini : SuccessfullyInitialized (new_PerfJITEventListener world0) = true)
    by (vm_compute; reflexivity).
  assert (Hsize : uint64 (2 ^ 32) = 2 ^ 32) by (apply uint64_small; lia).
  pose proof (stream_of_records world0 [ObjectEmitted obj_huge]) as Hstream.
  cbv zeta in Hstream. rewrite Hstream. clear Hstream.
  unfold obj_huge. rewrite single_function_session;
    [| exact Hini | rewrite Hsize; lia | reflexivity].
  destruct (successful_header world0 Hini) as (h & -> & Hh).
  cbn [flat_map]. rewrite app_nil_r.
  unfold decode_stream. rewrite (decode_header_bytes world0 h _ Hh).
  set (code := read_memory world0 (uint64 0x1000) (uint64 (2 ^ 32))).
  set (L0 := new_PerfJITEventListener world0).
  set (ts := fst (perf_get_timestamp world0 L0)).
  set (rec := CodeLoad.mk
                (Prefix.mk JIT_CODE_LOAD
                           (uint32 (uint64 (code_load_size "f" (uint64 (2 ^ 32))))) ts)
                (uint32 (Pid L0)) (uint32 (get_threadid world0)) 0
                (uint64 0x1000) (uint64 (2 ^ 32)) (CodeGeneration L0)).
  change (code_load_record world0 L0 "f" (uint64 0x1000) (uint64 (2 ^ 32)))
    with (CodeLoadRecord rec "f" code).
  set (r := CodeLoadRecord rec "f" code).
  assert (Hts : 0 <= ts < 2 ^ 64) by apply perf_get_timestamp_range.
  assert (Ht : uint32 (uint64 (code_load_size "f" (uint64 (2 ^ 32)))) = 58)
    by (vm_compute; reflexivity).
  assert (Hrec : decode_record (record_bytes r) = None).
  { rewrite record_bytes_split. subst r rec.
    cbn [record_prefix record_body CodeLoad.Prefix CodeLoad.Pid CodeLoad.Tid
         CodeLoad.Vma CodeLoad.CodeAddr CodeLoad.CodeSize CodeLoad.CodeIndex].
    unfold Prefix.bytes. cbn [Prefix.Id Prefix.TotalSize Prefix.Timestamp].
    rewrite Ht, <- !app_assoc.
    unfold decode_record.
    rewrite (get_uint32 JIT_CODE_LOAD) by (vm_compute; intuition discriminate).
    rewrite (get_uint32 58) by lia.
    rewrite (get_uint64 ts) by exact Hts.
    change (58 <? Prefix.sizeof) with false. cbv iota.
    change (Z.to_nat (58 - Prefix.sizeof)) with 42%nat.
    match goal with
    | |- context [take 42 (?a ++ ?b ++ ?c ++ ?d ++ ?e ++ ?f ++ ?g ++ code)] =>
      replace (a ++ b ++ c ++ d ++ e ++ f ++ g ++ code)
        with ((a ++ b ++ c ++ d ++ e ++ f ++ g) ++ code)
        by (now rewrite <- !app_assoc);
      replace 42%nat with (List.length (a ++ b ++ c ++ d ++ e ++ f ++ g))
        by (rewrite !length_app, !length_le_bytes; reflexivity)
    end.
    rewrite take_app.
    change (record_type_value JIT_CODE_LOAD =? JIT_CODE_LOAD) with true. cbv iota.
    unfold decode_code_load.
    rewrite get_uint32 by apply uint32_range.
    rewrite get_uint32 by apply uint32_range.
    rewrite (get_uint64 0) by lia.
    rewrite get_uint64 by apply uint64_range.
    rewrite get_uint64 by apply uint64_range.
    rewrite get_uint64
      by (subst L0; destruct (new_listener_fresh world0) as (_ & -> & _); lia).
    rewrite <- (app_nil_r (c_str "f")).
    rewrite get_string_c_str by reflexivity.
    cbn [List.length Z.of_nat]. rewrite Hsize. reflexivity. }
  destruct (record_bytes_cons r []) as (b & bs & Hcons).
  rewrite app_nil_r in Hcons. rewrite Hcons. cbn [List.length decode_records].
  rewrite <- Hcons, Hrec. reflexivity.
Qed.

(** C9 fails as stated.  The listener of [world0] is Active, and each of
    these sessions emits one function; a reader of its stream does not
    get the function back as it was emitted:
    - the function ["f"] of 2^32 bytes: the stream cannot be read, for
      the size field of the code-load record says 58 bytes;
    - a second line entry whose file name is the byte [0xff]: the reader
      takes it for the file of the entry before it, [a.c];
    - the line 2^31, and the discriminator 2^31: they read back as - 2^31;
    - a function name, and a file name, with a NUL inside: the name ends at
      the NUL for the reader, and what follows is not what it expects. *)
Lemma C9_counterexample :
  SuccessfullyInitialized (new_PerfJITEventListener world0) = true
  /\ (flat_map event_info [ObjectEmitted obj_huge] = [CodeInfo 0x1000 (2 ^ 32) "f"]
      /\ read_back world0 [ObjectEmitted obj_huge] = None)
  /\ (flat_map event_info [ObjectEmitted obj_ff]
      = [LineTableInfo 0x1000 [(0x1040, 10, 0, "a.c"%string);
                               (0x1050, 11, 0, same_as_previous)];
         CodeInfo 0x1000 64 "foo"]
      /\ read_back world0 [ObjectEmitted obj_ff]
         = Some [LineTableInfo 0x1000 [(0x1040, 10, 0, "a.c"%string);
                                       (0x1050, 11, 0, "a.c"%string)];
                 CodeInfo 0x1000 64 "foo"])
  /\ (flat_map event_info [ObjectEmitted obj_line_2_31]
      = [LineTableInfo 0x1000 [(0x1040, 2 ^ 31, 0, "a.c"%string)];
         CodeInfo 0x1000 64 "foo"]
      /\ read_back world0 [ObjectEmitted obj_line_2_31]
         = Some [LineTableInfo 0x1000 [(0x1040, - 2 ^ 31, 0, "a.c"%string)];
                 CodeInfo 0x1000 64 "foo"])
  /\ (flat_map event_info [ObjectEmitted obj_discriminator_2_31]
      = [LineTableInfo 0x1000 [(0x1040, 10, 2 ^ 31, "a.c"%string)];
         CodeInfo 0x1000 64 "foo"]
      /\ read_back world0 [ObjectEmitted obj_discriminator_2_31]
         = Some [LineTableInfo 0x1000 [(0x1040, 10, - 2 ^ 31, "a.c"%string)];
                 CodeInfo 0x1000 64 "foo"])
  /\ (flat_map event_info [ObjectEmitted obj_NUL]
      = [CodeInfo 0x1000 64 (string_of_list_byte ["a"; x00; "b"]%byte)]
      /\ read_back world0 [ObjectEmitted obj_NUL] = None)
  /\ (flat_map event_info [ObjectEmitted obj_NUL_file]
      = [LineTableInfo 0x1000
           [(0x1040, 10, 0, string_of_list_byte ["a"; x00; "c"]%byte)];
         CodeInfo 0x1000 64 "foo"]
      /\ read_back world0 [ObjectEmitted obj_NUL_file] = None).
Proof.
  split; [vm_compute; reflexivity |].
  split.
  { split; [reflexivity |].
    unfold read_back. now rewrite huge_function_is_not_read_back. }
  repeat split; vm_compute; reflexivity.
Qed.

(** * More about the listener *)

(** ** The image of the process *)

Lemma byte_of_Z_of_byte b : byte_of_Z (Z_of_byte b) = b.
Proof. destruct b; reflexivity. Qed.

Lemma le_bytes_2 (b0 b1 : byte) :
  le_bytes 4 (Z_of_byte b0 + 256 * Z_of_byte b1) = [b0; b1; x00; x00].
Proof.
  pose proof (Z_of_byte_range b0). pose proof (Z_of_byte_range b1).
  cbn [le_bytes].
  replace (Z_of_byte b0 + 256 * Z_of_byte b1)
    with (Z_of_byte b0 + Z_of_byte b1 * 256) by lia.
  rewrite byte_of_Z_add, byte_of_Z_of_byte.
  rewrite Z.div_add by lia. rewrite (Z.div_small (Z_of_byte b0)) by lia.
  cbn [Z.add]. rewrite byte_of_Z_of_byte.
  rewrite (Z.div_small (Z_of_byte b1)) by lia. reflexivity.
Qed.

Lemma FillMachine_short w hdr image :
  proc_self_exe w = Some image -> (List.length image < 20)%nat ->
  FillMachine w hdr = None.
Proof.
  intros E Hlen. unfold FillMachine. rewrite E.
  destruct (negb (Nat.eqb (List.length (firstn 16 image)) 16)) eqn:H16; [reflexivity |].
  destruct (_ || _); [reflexivity |].
  destruct (negb (Nat.eqb (List.length (firstn 4 (skipn 16 image))) 4)) eqn:H4;
    [reflexivity |].
  exfalso. apply negb_false_iff, Nat.eqb_eq in H16, H4.
  rewrite length_firstn in *. rewrite length_skipn in H4. lia.
Qed.

Lemma FillMachine_long w hdr image :
  proc_self_exe w = Some image -> (20 <= List.length image)%nat ->
  FillMachine w hdr
  = if (Byte.eqb (nth 0 image x00) x7f && Byte.eqb (nth 1 image x00) "E"
        && Byte.eqb (nth 2 image x00) "L" && Byte.eqb (nth 3 image x00) "F")%bool
    then Some (Header.mk (Header.Magic hdr) (Header.Version hdr) (Header.TotalSize hdr)
                         (Z_of_byte (nth 18 image x00)
                          + 256 * Z_of_byte (nth 19 image x00))
                         (Header.Pad1 hdr) (Header.Pid hdr)
                         (Header.Timestamp hdr) (Header.Flags hdr))
    else None.
Proof.
  intros E Hlen. unfold FillMachine. rewrite E.
  do 20 (destruct image as [| ? image]; [cbn in Hlen; lia |]).
  cbn [firstn skipn nth List.length Nat.eqb negb le_value].
  repeat match goal with |- context [Byte.eqb ?a ?b] =>
           destruct (Byte.eqb a b); cbn [negb orb andb]; try reflexivity
         end.
  do 2 f_equal. lia.
Qed.

Lemma FillMachine_Some w hdr h :
  FillMachine w hdr = Some h ->
  exists image,
    proc_self_exe w = Some image
    /\ (20 <= List.length image)%nat
    /\ firstn 4 image = [x7f; "E"; "L"; "F"]%byte
    /\ h = Header.mk (Header.Magic hdr) (Header.Version hdr) (Header.TotalSize hdr)
                     (Z_of_byte (nth 18 image x00)
                      + 256 * Z_of_byte (nth 19 image x00))
                     (Header.Pad1 hdr) (Header.Pid hdr)
                     (Header.Timestamp hdr) (Header.Flags hdr).
Proof.
  intros H. destruct (proc_self_exe w) as [image |] eqn:E.
  - destruct (le_lt_dec 20 (List.length image)) as [Hlen | Hlen].
    + exists image. rewrite (FillMachine_long w hdr image E Hlen) in H.
      destruct (_ && _)%bool eqn:Hsig in H; [| discriminate].
      injection H as <-.
      repeat split; try assumption.
      apply andb_prop in Hsig as [Hsig H3]. apply andb_prop in Hsig as [Hsig H2].
      apply andb_prop in Hsig as [H0 H1].
      apply byte_dec_bl in H0, H1, H2, H3.
      do 4 (destruct image as [| ? image]; [cbn in Hlen; lia |]).
      cbn [nth] in *. cbn [firstn]. congruence.
    + rewrite (FillMachine_short w hdr image E Hlen) in H. discriminate.
  - unfold FillMachine in H. rewrite E in H. discriminate.
Qed.

(** X1: [FillMachine] succeeds exactly when the image behind
    [/proc/self/exe] has at least 20 bytes and begins with the ELF
    signature [7f 45 4c 46]; it then sets [ElfMach] to the 16-bit
    little-endian value of bytes 18 and 19 of the image, the [e_machine]
    of the ELF header, and leaves the other fields of the header as they
    are. *)
Theorem FillMachine_reads_e_machine (w : World) (hdr h : Header.t) :
  FillMachine w hdr = Some h
  <-> exists image,
        proc_self_exe w = Some image
        /\ (20 <= List.length image)%nat
        /\ firstn 4 image = [x7f; "E"; "L"; "F"]%byte
        /\ h = Header.mk (Header.Magic hdr) (Header.Version hdr) (Header.TotalSize hdr)
                         (Z_of_byte (nth 18 image x00)
                          + 256 * Z_of_byte (nth 19 image x00))
                         (Header.Pad1 hdr) (Header.Pid hdr)
                         (Header.Timestamp hdr) (Header.Flags hdr).
Proof.
  split; [apply FillMachine_Some |].
  intros (image & E & Hlen & Hsig & ->).
  rewrite (FillMachine_long w hdr image E Hlen).
  do 4 (destruct image as [| ? image]; [cbn in Hlen; lia |]).
  cbn [firstn] in Hsig. injection Hsig as -> -> -> ->. reflexivity.
Qed.

(** ** The outcomes of the constructor *)

Lemma string_app_assoc (a b c : string) : ((a ++ b) ++ c = a ++ b ++ c)%string.
Proof. induction a as [| ch a IH]; cbn; [reflexivity | now rewrite IH]. Qed.

Lemma timestamp_at_ClockCalls w L :
  fst (perf_get_timestamp w L) = timestamp_at w (ClockCalls L).
Proof.
  unfold perf_get_timestamp, timestamp_at.
  now destruct (clock_gettime w (ClockCalls L)).
Qed.

(** Closes [step_fails w e] and its negation from the outcomes of the
    environment that [constructor_cases] has left in the context. *)
Ltac step_outcome :=
  cbn [step_fails]; unfold createUniqueDirectory;
  repeat match goal with
         | H : (_ =? _) = true |- _ => apply Z.eqb_eq in H
         | H : (_ =? _) = false |- _ => apply Z.eqb_neq in H
         | H : unique_suffix _ _ = _ |- _ => rewrite H
         end;
  try tauto; try congruence.

(** X2: the listener is Inert exactly when the initialisation fails: the
    probe of the clock gives 0, or one of the steps that the constructor
    takes fails.  There is no other way to end up Inert. *)
Theorem Inert_iff_initialization_fails (w : World) :
  SuccessfullyInitialized (new_PerfJITEventListener w) = false
  <-> initialization_fails w.
Proof.
  split; [| apply failed_initialization_is_Inert].
  unfold initialization_fails.
  constructor_cases; try discriminate; intros _.
  all: try (left; reflexivity).
  all: try (left; apply Z.eqb_eq; assumption).
  all: right; eexists; (split; [apply in_or_app; right; left; reflexivity |]);
    step_outcome.
Qed.

(** X3: the constructor gives up at the first step that fails.  When the
    probe of the clock gives 0 (the clock fails, or reads the time 0) it
    has done nothing else; otherwise the step that failed is the last
    thing it did, and every step before it succeeded. *)
Theorem constructor_gives_up_at_the_first_failure (w : World) :
  let L := new_PerfJITEventListener w in
  SuccessfullyInitialized L = false ->
  (timestamp_at w 0 = 0 /\ Effects L = [E_clock_gettime])
  \/ (timestamp_at w 0 <> 0
      /\ exists effs e,
           Effects L = effs ++ [e] /\ step_fails w e
           /\ forall e', In e' effs -> ~ step_fails w e').
Proof.
  cbv zeta. unfold timestamp_at.
  constructor_cases; try discriminate; intros _.
  all: try (left; split; reflexivity).
  all: try (left; split; [apply Z.eqb_eq; assumption | reflexivity]).
  all: right; (split; [apply Z.eqb_neq; assumption |]);
    do 2 eexists; (split; [reflexivity |]); (split; [step_outcome |]);
    intros e' Hin; cbn [app In] in Hin;
    repeat match goal with H : _ \/ _ |- _ => destruct H as [<- | H] end;
    try contradiction; step_outcome.
Qed.

(** X3 in [world_no_directory]: the constructor stops at the creation of the
    debug directory. *)
Lemma constructor_gives_up_witness :
  exists effs e,
    Effects (new_PerfJITEventListener world_no_directory) = effs ++ [e]
    /\ step_fails world_no_directory e.
Proof.
  destruct (constructor_gives_up_at_the_first_failure world_no_directory)
    as [[H _] | (_ & effs & e & He & Hf & _)].
  - vm_compute; reflexivity.
  - vm_compute in H. discriminate.
  - exists effs, e. split; [exact He | exact Hf].
Defined.

(** X4: what an Inert listener has handed to the stream: nothing, or, when
    the failure was an error of the stream at the write of the header,
    the 40 bytes of the header.  No event adds a record to it. *)
Theorem dump_of_an_Inert_listener (w : World) (events : list Event) :
  let L := session w events in
  SuccessfullyInitialized (new_PerfJITEventListener w) = false ->
  Emitted L = []
  /\ (written (Dumpstream L) = []
      \/ header_write_fails w = true
         /\ List.length (written (Dumpstream L)) = 40%nat
         /\ exists h, written (Dumpstream L) = Header.bytes h
                      /\ Header.Magic h = LLVM_PERF_JIT_MAGIC
                      /\ Header.Pid h = uint32 (getpid w))
  /\ (header_write_fails w = false -> written (Dumpstream L) = []).
Proof.
  cbv zeta. intros Hinert. unfold session.
  rewrite Inert_events by exact Hinert.
  split; [apply new_listener_fresh |].
  revert Hinert.
  constructor_cases; try discriminate; intros _.
  all: split; [| intros ?; first [ reflexivity | congruence ] ].
  all: try (left; reflexivity).
  all: right; cbn [app]; split; [reflexivity |];
    split; [apply length_Header_bytes |];
    eexists; split; [reflexivity |]; split; reflexivity.
Qed.

(** X4 in [world_no_directory]: nothing is handed to the stream. *)
Lemma dump_of_an_Inert_listener_witness :
  written (Dumpstream (session world_no_directory [ObjectEmitted obj_foo])) = [].
Proof.
  destruct (dump_of_an_Inert_listener world_no_directory [ObjectEmitted obj_foo])
    as (_ & _ & H); [vm_compute; reflexivity |].
  apply H. reflexivity.
Defined.

(** X5: where the session directory is made.  [JITDUMPDIR], when it is set,
    is the base directory, whatever the home directory is, and also when
    it is set to the empty string; otherwise the home directory is;
    without one, the current directory.  Once the probe of the clock has
    succeeded, the first thing the constructor does is to make
    [<base>/.debug/jit/]; if that fails it does nothing more, and
    otherwise it asks next for a unique directory of the prefix
    [<base>/.debug/jit/llvm-IR-jit-<YYYYMMDD>]. *)
Theorem session_directory (w : World) :
  let L := new_PerfJITEventListener w in
  timestamp_at w 0 <> 0 ->
  exists base rest,
    (forall dir, getenv_JITDUMPDIR w = Some dir -> base = dir)
    /\ (forall home, getenv_JITDUMPDIR w = None -> home_directory w = Some home ->
                     base = home)
    /\ (getenv_JITDUMPDIR w = None -> home_directory w = None -> base = "."%string)
    /\ Effects L
       = E_clock_gettime :: E_create_directories (base ++ "/.debug/jit/") :: rest
    /\ (create_directories w (base ++ "/.debug/jit/") = false -> rest = [])
    /\ (create_directories w (base ++ "/.debug/jit/") = true ->
        exists rest',
          rest = E_createUniqueDirectory
                   (base ++ "/.debug/jit/llvm-IR-jit-" ++ today w) :: rest').
Proof.
  cbv zeta. unfold timestamp_at.
  assert (Hp : forall base : string,
             (((base ++ "/.debug/jit/") ++ JIT_LANG ++ "-jit-") ++ today w
              = base ++ "/.debug/jit/llvm-IR-jit-" ++ today w)%string).
  { intros base. now rewrite !string_app_assoc. }
  constructor_cases; intros Hts;
    try (exfalso; apply Hts; first [reflexivity | apply Z.eqb_eq; assumption]).
  all: cbn [app]; rewrite ?Hp.
  all: match goal with
       | |- context [E_create_directories (?b ++ _)%string] => exists b
       end.
  all: eexists; repeat split; try congruence; try reflexivity.
  all: try (intros; congruence).
  all: try (intros; eexists; reflexivity).
Qed.

(** X5 with [JITDUMPDIR] set to the empty string: the debug directory is
    [/.debug/jit/], at the root of the file system, whatever the home
    directory. *)
Lemma session_directory_witness :
  exists rest,
    Effects (new_PerfJITEventListener world_JITDUMPDIR_empty)
    = E_clock_gettime
        :: E_create_directories "/.debug/jit/"
        :: E_createUniqueDirectory "/.debug/jit/llvm-IR-jit-20181030"
        :: rest.
Proof.
  destruct (session_directory world_JITDUMPDIR_empty)
    as (base & rest & Hd & _ & _ & He & _ & Hu).
  - vm_compute. discriminate.
  - rewrite (Hd EmptyString eq_refl) in *.
    destruct (Hu eq_refl) as (rest' & ->). exists rest'. exact He.
Defined.

(** X6: the dump of an Active listener begins with the 40 bytes of the
    header, little-endian: the magic (read as ["DTiJ"]), version 1, size
    40, the [e_machine] of the process's image, the pad 0, the process
    id, the timestamp of the second reading of the clock (which is not
    checked: it is 0 when that reading fails), and no flag: in particular
    the flag of an architecture-specific timestamp is not set. *)
Theorem header_of_an_Active_listener (w : World) :
  let L := new_PerfJITEventListener w in
  SuccessfullyInitialized L = true ->
  exists image,
    proc_self_exe w = Some image
    /\ written (Dumpstream L)
       = ["D"; "T"; "i"; "J"; x01; x00; x00; x00; x28; x00; x00; x00]%byte
         ++ [nth 18 image x00; nth 19 image x00; x00; x00]
         ++ [x00; x00; x00; x00]
         ++ le_bytes 4 (getpid w)
         ++ le_bytes 8 (timestamp_at w 1)
         ++ [x00; x00; x00; x00; x00; x00; x00; x00]
    /\ Z.land (le_value (skipn 32 (written (Dumpstream L))))
              JITDUMP_FLAGS_ARCH_TIMESTAMP = 0.
Proof.
  cbv zeta. intros Hini.
  assert (H : exists image,
             proc_self_exe w = Some image
             /\ written (Dumpstream (new_PerfJITEventListener w))
                = ["D"; "T"; "i"; "J"; x01; x00; x00; x00; x28; x00; x00; x00]%byte
                  ++ [nth 18 image x00; nth 19 image x00; x00; x00]
                  ++ [x00; x00; x00; x00]
                  ++ le_bytes 4 (getpid w)
                  ++ le_bytes 8 (timestamp_at w 1)
                  ++ [x00; x00; x00; x00; x00; x00; x00; x00]).
  { revert Hini. unfold timestamp_at.
    constructor_cases; try discriminate; intros _.
    all: match goal with H : FillMachine _ _ = Some _ |- _ =>
           apply FillMachine_Some in H;
           destruct H as (image & E & _ & _ & ->)
         end;
      exists image; (split; [exact E |]);
      unfold Header.bytes;
      cbn [app Header.Magic Header.Version Header.TotalSize Header.ElfMach Header.Pad1
           Header.Pid Header.Timestamp Header.Flags Header.zero];
      rewrite le_bytes_2;
      change (le_bytes 4 (uint32 (getpid w)))
        with (le_bytes 4 (getpid w mod 2 ^ (8 * Z.of_nat 4)));
      rewrite le_bytes_mod; reflexivity. }
  destruct H as (image & E & Hw). exists image. split; [exact E |].
  split; [exact Hw |].
  rewrite Hw.
  pose proof (length_le_bytes 4 (getpid w)) as H4.
  pose proof (length_le_bytes 8 (timestamp_at w 1)) as H8.
  destruct (le_bytes 4 (getpid w)) as [| p0 [| p1 [| p2 [| p3 [| ? ?]]]]]; try discriminate.
  destruct (le_bytes 8 (timestamp_at w 1))
    as [| t0 [| t1 [| t2 [| t3 [| t4 [| t5 [| t6 [| t7 [| ? ?]]]]]]]]]; try discriminate.
  reflexivity.
Qed.

(** X6 in [world0]. *)
Lemma header_of_an_Active_listener_witness :
  exists image,
    proc_self_exe world0 = Some image
    /\ written (Dumpstream (new_PerfJITEventListener world0))
       = ["D"; "T"; "i"; "J"; x01; x00; x00; x00; x28; x00; x00; x00]%byte
         ++ [nth 18 image x00; nth 19 image x00; x00; x00]
         ++ [x00; x00; x00; x00]
         ++ le_bytes 4 (getpid world0)
         ++ le_bytes 8 (timestamp_at world0 1)
         ++ [x00; x00; x00; x00; x00; x00; x00; x00].
Proof.
  destruct (header_of_an_Active_listener world0) as (image & E & H & _);
    [vm_compute; reflexivity |].
  exists image. split; [exact E | exact H].
Defined.

(** ** What the constructor prints *)

Lemma FillMachine_reports w hdr :
  match FillMachine w hdr with
  | Some _ => FillMachine_errs w = []
  | None => exists d, FillMachine_errs w = [d] /\ d <> no_debugging_directory
  end.
Proof.
  unfold FillMachine, FillMachine_errs.
  destruct (proc_self_exe w) as [image |]; [| now eexists].
  destruct (negb _); [now eexists |].
  destruct (_ || _); [now eexists |].
  destruct (negb _); [now eexists | reflexivity].
Qed.

(** X7: what the constructor reports.  A successful initialisation prints
    nothing.  A failed one prints one line, or two when the debugging
    directory could not be made (the line of [InitDebuggingDir] and the
    line of the constructor), with one exception: an error of the stream
    at the write of the header leaves the listener Inert without a word. *)
Theorem failures_are_reported_except_at_the_header (w : World) :
  let L := new_PerfJITEventListener w in
  let errs := new_PerfJITEventListener_errs w in
  (SuccessfullyInitialized L = true -> errs = [])
  /\ (SuccessfullyInitialized L = false ->
      (errs = [] <-> written (Dumpstream L) <> []))
  /\ (List.length errs <= 2)%nat
  /\ (List.length errs = 2%nat <-> In no_debugging_directory errs).
Proof.
  cbv zeta.
  pose proof (FillMachine_reports w Header.zero) as Hfill.
  revert Hfill.
  unfold new_PerfJITEventListener_errs, InitDebuggingDir_errs, OpenMarker_errs.
  constructor_cases; cbn [app List.length In]; intros Hfill;
    try (destruct Hfill as (d & -> & Hd)); try rewrite Hfill; cbn [app List.length In].
  all: repeat split; try discriminate; try congruence; try lia;
    try (intros; exfalso; lia);
    try (intros; exfalso; intuition discriminate);
    try (intros; intuition congruence).
Qed.

(** ** The clock *)

(** X8: for a time below 2^64 ns (some 584 years), with
    [0 <= tv_nsec < 10^9], [timespec_to_ns] is exact, it is 0 only for
    the time 0, and it keeps the order of the times. *)
Theorem timespec_to_ns_exact (a b : timespec) :
  0 <= tv_sec a < 18446744073 -> 0 <= tv_nsec a < NanoSecPerSec ->
  0 <= tv_sec b < 18446744073 -> 0 <= tv_nsec b < NanoSecPerSec ->
  timespec_to_ns a = tv_sec a * 1000000000 + tv_nsec a
  /\ (timespec_to_ns a = 0 <-> tv_sec a = 0 /\ tv_nsec a = 0)
  /\ (timespec_to_ns a < timespec_to_ns b
      <-> tv_sec a < tv_sec b \/ (tv_sec a = tv_sec b /\ tv_nsec a < tv_nsec b)).
Proof.
  unfold NanoSecPerSec. intros Ha Hna Hb Hnb.
  assert (He : forall t, 0 <= tv_sec t < 18446744073 -> 0 <= tv_nsec t < 1000000000 ->
                         timespec_to_ns t = tv_sec t * 1000000000 + tv_nsec t).
  { intros t Ht Hn. unfold timespec_to_ns, NanoSecPerSec.
    assert (H64 : 2 ^ 64 = 18446744073709551616) by reflexivity.
    rewrite (uint64_small (tv_sec t)) by lia.
    rewrite (uint64_small (tv_sec t * 1000000000)) by lia.
    apply uint64_small. lia. }
  rewrite (He a Ha Hna), (He b Hb Hnb). repeat split; lia.
Qed.

(** X8 at one second and two nanoseconds. *)
Lemma timespec_to_ns_exact_witness :
  timespec_to_ns {| tv_sec := 1; tv_nsec := 2 |} = 1000000002.
Proof.
  refine (proj1 (timespec_to_ns_exact {| tv_sec := 1; tv_nsec := 2 |}
                                      {| tv_sec := 1; tv_nsec := 2 |} _ _ _ _));
    cbn; unfold NanoSecPerSec; lia.
Defined.

Lemma timestamps_app rs rs' : timestamps (rs ++ rs') = timestamps rs ++ timestamps rs'.
Proof. apply map_app. Qed.

Lemma Dumpstream_flush_effects L :
  configuration (Dumpstream_flush L) = configuration L
  /\ Effects (Dumpstream_flush L) = Effects L ++ [E_flush]
  /\ ClockCalls (Dumpstream_flush L) = ClockCalls L.
Proof. destruct L. repeat split; reflexivity. Qed.

(** The records of a session and the readings of the clock. *)
Lemma clock_of_records w events :
  let L0 := new_PerfJITEventListener w in
  let L := session w events in
  ClockCalls L = (ClockCalls L0 + List.length (Emitted L))%nat
  /\ timestamps (Emitted L)
     = map (timestamp_at w) (seq (ClockCalls L0) (List.length (Emitted L))).
Proof.
  cbv zeta. unfold session. set (n0 := ClockCalls (new_PerfJITEventListener w)).
  apply (events_preserve w
           (fun L => ClockCalls L = (n0 + List.length (Emitted L))%nat
                     /\ timestamps (Emitted L)
                        = map (timestamp_at w) (seq n0 (List.length (Emitted L))))).
  - intros L CodeAddr Lines [Hc Ht].
    destruct Lines as [| It Lines]; [now split |].
    destruct (NotifyDebug_emits w L (uint64 CodeAddr) (It :: Lines))
      as (He & _ & _ & _ & Hc'); [discriminate |].
    rewrite He, Hc', length_app, timestamps_app, Ht, Hc. cbn [List.length].
    split; [lia |].
    rewrite Nat.add_1_r, seq_S, map_app. f_equal.
    unfold debug_info_record.
    cbn [timestamps map record_prefix DebugInfo.Prefix Prefix.Timestamp].
    now rewrite timestamp_at_ClockCalls, Hc.
  - intros L Symbol CodeAddr CodeSize [Hc Ht].
    destruct (Z.eq_dec (uint64 CodeSize) 0) as [E | Hs]; [rewrite E; now split |].
    destruct (NotifyCode_emits w L Symbol (uint64 CodeAddr) (uint64 CodeSize) Hs)
      as (He & _ & _ & _ & Hc').
    rewrite He, Hc', length_app, timestamps_app, Ht, Hc. cbn [List.length].
    split; [lia |].
    rewrite Nat.add_1_r, seq_S, map_app. f_equal.
    unfold code_load_record.
    cbn [timestamps map record_prefix CodeLoad.Prefix Prefix.Timestamp].
    now rewrite timestamp_at_ClockCalls, Hc.
  - intros L H. destruct (Dumpstream_flush_members L) as (-> & _).
    destruct (Dumpstream_flush_effects L) as (_ & _ & ->). exact H.
  - destruct (new_listener_fresh w) as (He & _). rewrite He. cbn.
    split; [lia | reflexivity].
Qed.

Lemma Active_has_read_the_clock_twice w :
  SuccessfullyInitialized (new_PerfJITEventListener w) = true ->
  ClockCalls (new_PerfJITEventListener w) = 2%nat /\ timestamp_at w 0 <> 0.
Proof.
  unfold timestamp_at.
  constructor_cases; try discriminate; intros _; (split; [reflexivity |]);
    apply Z.eqb_neq; assumption.
Qed.

(** X9: every record costs exactly one reading of the clock, and carries
    what that reading gave: the [k]-th record of a session has the
    timestamp of the reading number [ClockCalls L0 + k], which is 0 when
    that reading failed.  The constructor of an Active listener has read
    the clock twice, so that the first record of a session has the
    timestamp of the third reading. *)
Theorem timestamps_follow_the_clock (w : World) (events : list Event) :
  let L0 := new_PerfJITEventListener w in
  let L := session w events in
  ClockCalls L = (ClockCalls L0 + List.length (Emitted L))%nat
  /\ timestamps (Emitted L)
     = map (timestamp_at w) (seq (ClockCalls L0) (List.length (Emitted L)))
  /\ (SuccessfullyInitialized L0 = true -> ClockCalls L0 = 2%nat).
Proof.
  cbv zeta. destruct (clock_of_records w events) as (Hc & Ht).
  split; [exact Hc |]. split; [exact Ht |].
  intros Hini. apply (Active_has_read_the_clock_twice w Hini).
Qed.

Lemma sorted_map_seq (f : nat -> Z) n : forall a,
  (forall i j, (a <= i)%nat -> (i <= j)%nat -> (j < a + n)%nat -> f i <= f j) ->
  StronglySorted Z.le (map f (seq a n)).
Proof.
  induction n as [| n IH]; intros a H; cbn [seq map]; constructor.
  - apply IH. intros i j Hi Hij Hj. apply H; lia.
  - apply Forall_forall. intros x Hx. apply in_map_iff in Hx as (j & <- & Hj).
    apply in_seq in Hj. apply H; lia.
Qed.

(** X10: when the readings of the clock that a session makes do not go back,
    the timestamps of the header ([timestamp_at w 1]) and of the records
    do not either: in stream order they are sorted, and none of them is
    0. *)
Theorem timestamps_sorted_under_a_monotone_clock (w : World) (events : list Event) :
  let L := session w events in
  SuccessfullyInitialized (new_PerfJITEventListener w) = true ->
  (forall i j, (i <= j)%nat -> (j < ClockCalls L)%nat ->
               timestamp_at w i <= timestamp_at w j) ->
  StronglySorted Z.le (timestamp_at w 1 :: timestamps (Emitted L))
  /\ Forall (fun t => 0 < t) (timestamp_at w 1 :: timestamps (Emitted L)).
Proof.
  cbv zeta. intros Hini Hmono.
  destruct (clock_of_records w events) as (Hc & Ht).
  destruct (Active_has_read_the_clock_twice w Hini) as (H2 & Hn).
  cbv zeta in *. rewrite H2 in *.
  set (L := session w events) in *. set (n := List.length (Emitted L)) in *.
  assert (Hs : timestamp_at w 1 :: timestamps (Emitted L)
               = map (timestamp_at w) (seq 1 (S n))).
  { rewrite Ht. reflexivity. }
  rewrite Hs.
  assert (H0 : 0 < timestamp_at w 0).
  { pose proof (perf_get_timestamp_range w (initial w)) as Hr.
    rewrite timestamp_at_ClockCalls in Hr. cbn [ClockCalls initial] in Hr. lia. }
  split.
  - apply sorted_map_seq. intros i j Hi Hij Hj. apply Hmono; lia.
  - apply Forall_forall. intros t Hin. apply in_map_iff in Hin as (j & <- & Hj).
    apply in_seq in Hj.
    assert (timestamp_at w 0 <= timestamp_at w j) by (apply Hmono; lia). lia.
Qed.

(** X10 at the session of [world0] that emits ["foo"] and then ["bar"]: three
    records after the header, five readings of the clock. *)
Lemma timestamps_sorted_witness :
  StronglySorted Z.le
    (timestamp_at world0 1
     :: timestamps (Emitted (session world0 [ObjectEmitted obj_foo; ObjectEmitted obj_bar]))).
Proof.
  refine (proj1 (timestamps_sorted_under_a_monotone_clock
                   world0 [ObjectEmitted obj_foo; ObjectEmitted obj_bar] _ _)).
  - vm_compute; reflexivity.
  - intros i j Hij Hj.
    assert (Hc : ClockCalls (session world0 [ObjectEmitted obj_foo; ObjectEmitted obj_bar])
                 = 5%nat) by (vm_compute; reflexivity).
    rewrite Hc in Hj.
    assert (Hv : forall k, (k < 5)%nat -> timestamp_at world0 k = 1000000000 + Z.of_nat k).
    { intros k Hk. do 5 (destruct k as [| k]; [vm_compute; reflexivity |]). lia. }
    rewrite !Hv by lia. lia.
Defined.

(** ** What the events do to the environment *)

Lemma configuration_members L L' :
  configuration L' = configuration L ->
  Pid L' = Pid L /\ JitPath L' = JitPath L /\ DumpFd L' = DumpFd L
  /\ MarkerAddr L' = MarkerAddr L.
Proof. unfold configuration. intros H. injection H as -> -> -> ->. now repeat split. Qed.

Lemma NotifyCode_effects w L Symbol CodeAddr CodeSize :
  CodeSize <> 0 ->
  let L' := NotifyCode w L Symbol CodeAddr CodeSize in
  configuration L' = configuration L
  /\ exists rec,
       Effects L'
       = Effects L ++ [E_clock_gettime; E_write (CodeLoad.bytes rec);
                       E_write (c_str Symbol);
                       E_write (read_memory w CodeAddr CodeSize)].
Proof.
  intros Hs. unfold NotifyCode, configuration.
  destruct (Z.eqb_spec CodeSize 0) as [-> | _]; [contradiction |].
  unfold perf_get_timestamp. destruct L as [pid path fd [bs err] marker ini gen calls eff em].
  destruct (clock_gettime w _); listener_simpl;
    (split; [reflexivity |]); eexists; rewrite <- !app_assoc; reflexivity.
Qed.

Lemma write_loop_effects Lines : forall L,
  let L' := fold_left write_entry Lines L in
  configuration L' = configuration L
  /\ Effects L'
     = Effects L
       ++ flat_map (fun It => [E_write (DebugEntry.bytes (make_LineInfo It));
                               E_write (c_str (FileName (snd It)))]) Lines.
Proof.
  induction Lines as [| It Lines IH]; intros L.
  - cbn. now rewrite app_nil_r.
  - cbn [fold_left flat_map].
    destruct (IH (write_entry L It)) as (Hc & He).
    cbv zeta. rewrite Hc, He.
    unfold write_entry, configuration.
    destruct L as [pid path fd [bs err] marker ini gen calls eff em].
    listener_simpl. rewrite <- !app_assoc. split; reflexivity.
Qed.

Lemma emitted_configuration r L :
  configuration (emitted r L) = configuration L
  /\ Effects (emitted r L) = Effects L.
Proof. destruct L. split; reflexivity. Qed.

Lemma NotifyDebug_effects w L CodeAddr Lines :
  Lines <> [] ->
  let L' := NotifyDebug w L CodeAddr Lines in
  configuration L' = configuration L
  /\ exists rec,
       Effects L'
       = Effects L
         ++ E_clock_gettime :: E_write (DebugInfo.bytes rec)
            :: flat_map (fun It => [E_write (DebugEntry.bytes (make_LineInfo It));
                                    E_write (c_str (FileName (snd It)))]) Lines.
Proof.
  intros Hl. destruct Lines as [| It0 Lines0]; [contradiction |].
  unfold NotifyDebug, perf_get_timestamp.
  set (Lines := It0 :: Lines0).
  destruct (clock_gettime w (ClockCalls L)); cbv zeta; cbn [fst];
    match goal with |- context [emitted ?r (fold_left write_entry Lines ?L1)] =>
      destruct (emitted_configuration r (fold_left write_entry Lines L1)) as (E1 & E2);
      destruct (write_loop_effects Lines L1) as (Hc & He)
    end;
    cbv zeta in Hc, He;
    rewrite E1, E2, Hc, He;
    destruct L as [pid path fd [bs err] marker ini gen calls eff em];
    unfold configuration; listener_simpl;
    (split; [reflexivity |]); eexists; rewrite <- !app_assoc; reflexivity.
Qed.

(** What one symbol does to the environment: clock readings and writes. *)
Lemma notify_symbol_effects w Obj L P :
  let L' := notify_symbol w Obj L P in
  configuration L' = configuration L
  /\ exists effs,
       Effects L' = Effects L ++ effs /\ forallb is_record_effect effs = true.
Proof.
  cbv zeta. unfold notify_symbol.
  assert (Hnone : configuration L = configuration L
                  /\ exists effs, Effects L = Effects L ++ effs
                                  /\ forallb is_record_effect effs = true).
  { split; [reflexivity |]. exists []. now rewrite app_nil_r. }
  destruct (getType (fst P)) as [ty |]; [| exact Hnone].
  destruct (is_function ty); cbn [negb]; [| exact Hnone].
  destruct (getName (fst P)) as [Name |]; [| exact Hnone].
  destruct (getAddress (fst P)) as [Addr |]; [| exact Hnone].
  cbv zeta. clear Hnone.
  set (CodeAddr := uint64 Addr). set (CodeSize := uint64 (snd P)).
  set (Lines := getLineInfoForAddressRange Obj CodeAddr CodeSize).
  assert (Hd : configuration (NotifyDebug w L CodeAddr Lines) = configuration L
               /\ exists effs, Effects (NotifyDebug w L CodeAddr Lines) = Effects L ++ effs
                               /\ forallb is_record_effect effs = true).
  { destruct Lines as [| It Lines'] eqn:E.
    - split; [reflexivity |]. exists []. now rewrite app_nil_r.
    - destruct (NotifyDebug_effects w L CodeAddr (It :: Lines')) as (Hc & rec & He);
        [discriminate |].
      split; [exact Hc |]. eexists. split; [exact He |].
      cbn [forallb is_record_effect andb].
      clear. induction Lines' as [| It' Lines' IH]; [reflexivity |].
      cbn [flat_map app forallb is_record_effect andb] in *. exact IH. }
  destruct Hd as (Hc & effs & He & Hf).
  set (L1 := NotifyDebug w L CodeAddr Lines) in *.
  destruct (Z.eq_dec CodeSize 0) as [E | Hs].
  - rewrite E. rewrite NotifyCode_zero. split; [exact Hc |]. now exists effs.
  - destruct (NotifyCode_effects w L1 Name CodeAddr CodeSize Hs) as (Hc' & rec & He').
    split; [now rewrite Hc' |].
    eexists. rewrite He', He, <- app_assoc. split; [reflexivity |].
    rewrite forallb_app, Hf. reflexivity.
Qed.

Lemma symbols_effects w Obj Syms : forall L,
  let L' := fold_left (notify_symbol w Obj) Syms L in
  configuration L' = configuration L
  /\ exists effs,
       Effects L' = Effects L ++ effs /\ forallb is_record_effect effs = true.
Proof.
  induction Syms as [| P Syms IH]; intros L; cbn [fold_left].
  - split; [reflexivity |]. exists []. now rewrite app_nil_r.
  - destruct (IH (notify_symbol w Obj L P)) as (Hc & effs & He & Hf).
    destruct (notify_symbol_effects w Obj L P) as (Hc' & effs' & He' & Hf').
    cbv zeta in *. split; [now rewrite Hc |].
    exists (effs' ++ effs). rewrite He, He', <- app_assoc. split; [reflexivity |].
    now rewrite forallb_app, Hf, Hf'.
Qed.

Lemma record_effect_is_stream_effect effs :
  forallb is_record_effect effs = true -> forallb is_stream_effect effs = true.
Proof.
  induction effs as [| e effs IH]; [reflexivity |].
  cbn [forallb]. intros H. apply andb_prop in H as [He H].
  rewrite (IH H). now destruct e.
Qed.

Lemma notify_effects w L e :
  let L' := notify w L e in
  configuration L' = configuration L
  /\ exists effs,
       Effects L' = Effects L ++ effs /\ forallb is_stream_effect effs = true.
Proof.
  cbv zeta.
  assert (Hnone : configuration L = configuration L
                  /\ exists effs, Effects L = Effects L ++ effs
                                  /\ forallb is_stream_effect effs = true).
  { split; [reflexivity |]. exists []. now rewrite app_nil_r. }
  destruct e as [Obj | Obj]; cbn [notify]; [| exact Hnone].
  unfold NotifyObjectEmitted.
  destruct (SuccessfullyInitialized L); cbn [negb]; [| exact Hnone].
  destruct (symbols_effects w Obj (computeSymbolSizes Obj) L) as (Hc & effs & He & Hf).
  cbv zeta in *.
  destruct (Dumpstream_flush_effects (fold_left (notify_symbol w Obj) (computeSymbolSizes Obj) L))
    as (Hc' & He' & _).
  split; [now rewrite Hc' |].
  exists (effs ++ [E_flush]). rewrite He', He, <- app_assoc. split; [reflexivity |].
  rewrite forallb_app, (record_effect_is_stream_effect _ Hf). reflexivity.
Qed.

Lemma events_effects w events : forall L,
  let L' := fold_left (notify w) events L in
  configuration L' = configuration L
  /\ exists effs,
       Effects L' = Effects L ++ effs /\ forallb is_stream_effect effs = true.
Proof.
  induction events as [| e events IH]; intros L0; cbn [fold_left].
  - split; [reflexivity |]. exists []. now rewrite app_nil_r.
  - destruct (IH (notify w L0 e)) as (Hc & effs & He & Hf).
    destruct (notify_effects w L0 e) as (Hc' & effs' & He' & Hf').
    cbv zeta in *. split; [now rewrite Hc |].
    exists (effs' ++ effs). rewrite He, He', <- app_assoc. split; [reflexivity |].
    now rewrite forallb_app, Hf, Hf'.
Qed.

(** X11: no event changes the members that the constructor has set (the
    process id, the path, the descriptor, the marker), and all that the
    events do to the environment is read the clock, write to the stream
    and flush it: no directory is created, no file opened, nothing
    mapped. *)
Theorem events_only_touch_the_stream (w : World) (events : list Event) :
  let L0 := new_PerfJITEventListener w in
  let L := session w events in
  configuration L = configuration L0
  /\ exists effs,
       Effects L = Effects L0 ++ effs /\ forallb is_stream_effect effs = true.
Proof. cbv zeta. apply events_effects. Qed.

(** X12: the constructor never flushes the stream (the header waits in the
    stream until the first event), and an emitted object on an Active
    listener ends with exactly one flush, after the clock readings and
    the writes of its records, also when the object has no symbol. *)
Theorem flush_discipline (w : World) :
  forallb (fun e => match e with E_flush => false | _ => true end)
          (Effects (new_PerfJITEventListener w)) = true
  /\ forall L Obj,
       SuccessfullyInitialized L = true ->
       exists effs,
         Effects (NotifyObjectEmitted w L Obj) = Effects L ++ effs ++ [E_flush]
         /\ forallb is_record_effect effs = true
         /\ (computeSymbolSizes Obj = [] -> effs = []).
Proof.
  split.
  - constructor_cases; reflexivity.
  - intros L Obj Hini. unfold NotifyObjectEmitted. rewrite Hini. cbn [negb].
    destruct (symbols_effects w Obj (computeSymbolSizes Obj) L) as (_ & effs & He & Hf).
    cbv zeta in *.
    destruct (Dumpstream_flush_effects (fold_left (notify_symbol w Obj) (computeSymbolSizes Obj) L))
      as (_ & He' & _).
    exists effs. rewrite He', He, <- app_assoc. repeat split; [exact Hf |].
    intros Hnil. rewrite Hnil in He. cbn [fold_left] in He.
    apply (app_inv_head (Effects L)). now rewrite app_nil_r.
Qed.

(** X13: a dump only grows.  The session of [es] followed by [es'] is the
    session of [es] notified of [es']; its records are those of the
    session of [es] followed by new ones, and its stream is the stream of
    the session of [es] followed by the bytes of the new records: nothing
    that was written is changed or taken back. *)
Theorem a_dump_only_grows (w : World) (es es' : list Event) :
  let L := session w es in
  let L' := session w (es ++ es') in
  L' = fold_left (notify w) es' L
  /\ exists rs,
       Emitted L' = Emitted L ++ rs
       /\ written (Dumpstream L') = written (Dumpstream L) ++ flat_map record_bytes rs.
Proof.
  cbv zeta. unfold session. rewrite fold_left_app.
  split; [reflexivity |].
  set (L := fold_left (notify w) es (new_PerfJITEventListener w)).
  apply (events_preserve w
           (fun L' => exists rs,
                Emitted L' = Emitted L ++ rs
                /\ written (Dumpstream L')
                   = written (Dumpstream L) ++ flat_map record_bytes rs)).
  - intros L1 CodeAddr Lines (rs & He & Hw).
    destruct Lines as [| It Lines]; [now exists rs |].
    destruct (NotifyDebug_emits w L1 (uint64 CodeAddr) (It :: Lines))
      as (He' & Hw' & _); [discriminate |].
    eexists. rewrite He', Hw', He, Hw, <- !app_assoc. split; [reflexivity |].
    rewrite flat_map_app. cbn [flat_map]. now rewrite app_nil_r.
  - intros L1 Symbol CodeAddr CodeSize (rs & He & Hw).
    destruct (Z.eq_dec (uint64 CodeSize) 0) as [E | Hs]; [rewrite E; now exists rs |].
    destruct (NotifyCode_emits w L1 Symbol (uint64 CodeAddr) (uint64 CodeSize) Hs)
      as (He' & Hw' & _).
    eexists. rewrite He', Hw', He, Hw, <- !app_assoc. split; [reflexivity |].
    rewrite flat_map_app. cbn [flat_map]. now rewrite app_nil_r.
  - intros L1 H. destruct (Dumpstream_flush_members L1) as (-> & -> & _). exact H.
  - exists []. cbn [flat_map]. now rewrite !app_nil_r.
Qed.

(** ** The records of a session, once more *)

(** X14: only two kinds of record are ever written, code loads (id 0) and
    debug infos (id 2), each with its id in the first four bytes of its
    record in the stream; never a code move, a close or an unwinding
    info.  A debug-info record is never empty: it announces the entries
    that it has, and it has at least one. *)
Theorem only_code_loads_and_debug_infos (w : World) (events : list Event) :
  Forall (fun r =>
            Prefix.Id (record_prefix r) <> JIT_CODE_MOVE
            /\ Prefix.Id (record_prefix r) <> JIT_CODE_CLOSE
            /\ Prefix.Id (record_prefix r) <> JIT_CODE_UNWINDING_INFO
            /\ match r with
               | CodeLoadRecord rec _ _ =>
                 Prefix.Id (CodeLoad.Prefix rec) = JIT_CODE_LOAD
                 /\ firstn 4 (record_bytes r) = [x00; x00; x00; x00]
               | DebugInfoRecord rec entries =>
                 Prefix.Id (DebugInfo.Prefix rec) = JIT_CODE_DEBUG_INFO
                 /\ firstn 4 (record_bytes r) = [x02; x00; x00; x00]
                 /\ entries <> []
                 /\ DebugInfo.NrEntry rec = Z.of_nat (List.length entries)
               end)
         (Emitted (session w events)).
Proof.
  destruct (records_ok w events) as (Hok & _). cbv zeta in Hok.
  eapply Forall_impl; [| exact Hok].
  intros r (_ & _ & H). destruct r as [rec name code | rec entries].
  - destruct H as (Hid & _).
    cbn [record_prefix]. rewrite Hid.
    repeat split; try discriminate.
    destruct rec as [[id total ts] pid tid vma addr size index].
    cbn [CodeLoad.Prefix Prefix.Id] in Hid. subst id. reflexivity.
  - destruct H as (Hid & _ & Hnr & Hne & _).
    cbn [record_prefix]. rewrite Hid.
    repeat split; try discriminate; try assumption.
    destruct rec as [[id total ts] addr nr].
    cbn [DebugInfo.Prefix Prefix.Id] in Hid. subst id. reflexivity.
Qed.



Lemma notify_symbol_skips w Obj L P :
  is_named_function P = false -> notify_symbol w Obj L P = L.
Proof.
  unfold is_named_function, notify_symbol.
  destruct (getType (fst P)) as [[] |]; cbn [is_function negb]; try reflexivity.
  destruct (getName (fst P)); [| reflexivity].
  destruct (getAddress (fst P)); [discriminate | reflexivity].
Qed.

(** X16: a symbol that is not a function, or whose type, name or address
    cannot be read, leaves no trace: an object is handled as the same
    object without these symbols, and an object that has only such
    symbols (or none) gets a flush and nothing else. *)
Theorem skipped_symbols_leave_no_trace
        (w : World) (L : PerfJITEventListener) (Obj : ObjectFile) :
  NotifyObjectEmitted w L Obj
  = NotifyObjectEmitted w L
      {| computeSymbolSizes := filter is_named_function (computeSymbolSizes Obj);
         getLineInfoForAddressRange := getLineInfoForAddressRange Obj |}
  /\ (filter is_named_function (computeSymbolSizes Obj) = [] ->
      NotifyObjectEmitted w L Obj
      = if SuccessfullyInitialized L then Dumpstream_flush L else L).
Proof.
  assert (H : forall Syms L0,
             fold_left (notify_symbol w Obj) Syms L0
             = fold_left (notify_symbol w Obj) (filter is_named_function Syms) L0).
  { induction Syms as [| P Syms IH]; intros L0; [reflexivity |].
    cbn [fold_left filter].
    destruct (is_named_function P) eqn:E; cbn [fold_left].
    - apply IH.
    - rewrite notify_symbol_skips by exact E. apply IH. }
  unfold NotifyObjectEmitted.
  destruct (SuccessfullyInitialized L); cbn [negb]; [| split; reflexivity].
  cbn [computeSymbolSizes]. rewrite H. split.
  - reflexivity.
  - intros ->. reflexivity.
Qed.

Lemma code_loads_app rs rs' : code_loads (rs ++ rs') = code_loads rs ++ code_loads rs'.
Proof. apply flat_map_app. Qed.

Lemma notify_symbol_code_loads w Obj L P :
  code_loads (Emitted (notify_symbol w Obj L P))
  = code_loads (Emitted L)
    ++ match getType (fst P), getName (fst P), getAddress (fst P) with
       | Some ST_Function, Some Name, Some Addr =>
         if uint64 (snd P) =? 0 then []
         else [(uint64 Addr, uint64 (snd P), Name)]
       | _, _, _ => []
       end.
Proof.
  unfold notify_symbol.
  destruct (getType (fst P)) as [[] |]; cbn [is_function negb];
    try (now rewrite app_nil_r).
  destruct (getName (fst P)) as [Name |]; [| now rewrite app_nil_r].
  destruct (getAddress (fst P)) as [Addr |]; [| now rewrite app_nil_r].
  cbv zeta. rewrite function_emits, !code_loads_app.
  destruct (getLineInfoForAddressRange Obj (uint64 Addr) (uint64 (snd P)));
    destruct (uint64 (snd P) =? 0); cbn; now rewrite ?app_nil_r.
Qed.

(** X17: in an Active session there is exactly one code-load record for every
    function with code of every emitted object, in the order of the
    events and of the symbols, with the address, the size and the name of
    the function; nothing else gets a code-load record. *)
Theorem one_code_load_per_function_with_code (w : World) (events : list Event) :
  SuccessfullyInitialized (new_PerfJITEventListener w) = true ->
  code_loads (Emitted (session w events)) = flat_map functions_with_code events.
Proof.
  intros Hini. unfold session.
  assert (H : forall L, SuccessfullyInitialized L = true ->
                code_loads (Emitted (fold_left (notify w) events L))
                = code_loads (Emitted L) ++ flat_map functions_with_code events).
  { induction events as [| e events IH]; intros L HL; cbn [fold_left flat_map].
    - now rewrite app_nil_r.
    - rewrite IH by (exact (eq_trans (Initialized_events w [e] L) HL)).
      rewrite app_assoc. f_equal.
      destruct e as [Obj | Obj]; cbn [notify functions_with_code NotifyFreeingObject];
        [| now rewrite app_nil_r].
      unfold NotifyObjectEmitted. rewrite HL. cbn [negb].
      destruct (Dumpstream_flush_members
                  (fold_left (notify_symbol w Obj) (computeSymbolSizes Obj) L)) as (-> & _).
      generalize (computeSymbolSizes Obj) as Syms. clear.
      intros Syms. revert L. induction Syms as [| P Syms IHs]; intros L;
        cbn [fold_left flat_map]; [now rewrite app_nil_r |].
      rewrite IHs, notify_symbol_code_loads, app_assoc. reflexivity. }
  rewrite H by exact Hini.
  destruct (new_listener_fresh w) as (-> & _). reflexivity.
Qed.

(** X17 at the session of [world0] that emits ["foo"] and then ["bar"]. *)
Lemma one_code_load_per_function_witness :
  code_loads (Emitted (session world0 [ObjectEmitted obj_foo; ObjectEmitted obj_bar]))
  = [(0x1000, 64, "foo"%string); (0x2000, 32, "bar"%string)].
Proof.
  rewrite (one_code_load_per_function_with_code world0); [reflexivity |].
  vm_compute; reflexivity.
Defined.

(** ** The end of a listener *)

(** X18: destroying a listener.  No event moves the marker, so the destructor
    sees the [MarkerAddr] that the constructor left: it hands to
    [munmap], once, the value that [mmap] returned when the constructor
    got as far as mapping the marker (also the value [MAP_FAILED] of a
    mapping that failed, which is not [NULL]), and nothing when the
    constructor did not get that far.  Afterwards the marker is [NULL],
    and closing or destroying once more does nothing. *)
Theorem destructor_unmaps_the_marker (w : World) (events : list Event) :
  let L0 := new_PerfJITEventListener w in
  let L := session w events in
  let D := delete_PerfJITEventListener L in
  MarkerAddr L = MarkerAddr L0
  /\ (forall fd, In (E_mmap fd) (Effects L0) -> mmap w fd <> 0 -> fst D = [mmap w fd])
  /\ (forall fd, In (E_mmap fd) (Effects L0) -> mmap w fd = MAP_FAILED ->
                 SuccessfullyInitialized L = false /\ fst D = [MAP_FAILED])
  /\ ((forall fd, ~ In (E_mmap fd) (Effects L0)) -> fst D = [])
  /\ MarkerAddr (snd D) = 0
  /\ CloseMarker (snd D) = ([], snd D)
  /\ delete_PerfJITEventListener (snd D) = ([], snd D).
Proof.
  cbv zeta.
  destruct (events_effects w events (new_PerfJITEventListener w)) as (Hc & _).
  cbv zeta in Hc. fold (session w events) in Hc.
  apply configuration_members in Hc as (_ & _ & _ & Hm).
  set (L := session w events) in *.
  assert (Hini : SuccessfullyInitialized L
                 = SuccessfullyInitialized (new_PerfJITEventListener w))
    by apply Initialized_events.
  assert (Hd : delete_PerfJITEventListener L
               = if MarkerAddr L =? 0 then ([], L)
                 else ([MarkerAddr L], set_MarkerAddr 0 L)).
  { unfold delete_PerfJITEventListener, CloseMarker.
    now destruct (MarkerAddr L =? 0). }
  assert (Hz : forall L1, MarkerAddr (set_MarkerAddr 0 L1) = 0) by (now intros []).
  split; [exact Hm |].
  rewrite Hd, Hm, Hini. clear Hd Hini.
  split; [| split; [| split; [| split; [| split]]]].
  - intros fd. constructor_cases; cbn [app In]; intros Hin Hn;
      repeat match goal with H : _ \/ _ |- _ => destruct H as [H | H] end;
      try discriminate; try contradiction;
      injection Hin as <-;
      repeat match goal with
             | H : (_ =? _) = true |- _ => apply Z.eqb_eq in H
             | H : (_ =? _) = false |- _ => apply Z.eqb_neq in H
             end;
      first [contradiction | reflexivity].
  - intros fd. constructor_cases; cbn [app In]; intros Hin Hf;
      repeat match goal with H : _ \/ _ |- _ => destruct H as [H | H] end;
      try discriminate; try contradiction;
      injection Hin as <-;
      repeat match goal with
             | H : (_ =? _) = true |- _ => apply Z.eqb_eq in H
             | H : (_ =? _) = false |- _ => apply Z.eqb_neq in H
             end;
      try contradiction;
      try (exfalso; unfold MAP_FAILED in *; lia);
      rewrite Hf; (split; reflexivity).
  - constructor_cases; cbn [app In]; intros Hno; try reflexivity;
      try match goal with
          | H : (?a =? ?a) = false |- _ => rewrite Z.eqb_refl in H; discriminate H
          end;
      exfalso; eapply Hno; eauto 10.
  - destruct (MarkerAddr (new_PerfJITEventListener w) =? 0) eqn:E; cbn [snd].
    + rewrite Hm. now apply Z.eqb_eq.
    + apply Hz.
  - unfold CloseMarker.
    destruct (MarkerAddr (new_PerfJITEventListener w) =? 0) eqn:E; cbn [snd].
    + now rewrite Hm, E.
    + now rewrite Hz.
  - unfold delete_PerfJITEventListener.
    destruct (MarkerAddr (new_PerfJITEventListener w) =? 0) eqn:E; cbn [snd].
    + now rewrite Hm, E.
    + now rewrite Hz.
Qed.
